(** * apollo-mongoose-datasource: filter compiler and data-source facade

    A shallow embedding of [src/toMongooseFilterExpression] (the filter
    compiler), [src/cleanDocumentUpdate] and the [MongooseDataSource] class
    of [index.js], together with the properties stated about them.

    The development has three layers.
    - [Js]: the fragment of the JavaScript runtime the code relies on
      (numbers as IEEE-754 binary64 values, [parseInt], [Object.keys],
      property reads and writes with own-property enumeration order,
      [Object.assign], the [kind-of] package).
    - the filter compiler over immutable value trees (what the compiler
      computes);
    - [Store]: the same code over a heap of mutable cells with object
      identity (what the compiler and the facade do to shared objects),
      and the facade's asynchronous operations as interaction trees over
      the calls made to Mongoose. *)

From Stdlib Require Import ZArith String Ascii List Bool Lia DecimalString.
From Stdlib Require Import Floats.SpecFloat.
From stdpp Require Import base list.

Import ListNotations.
Local Open Scope string_scope.
Local Open Scope list_scope.

(** ** Numbers

    A JavaScript number is an IEEE-754 binary64 value: [spec_float] at
    precision 53 and maximal exponent 1024. *)

Definition number : Type := spec_float.

Definition js_prec : Z := 53.
Definition js_emax : Z := 1024.

Definition NaN : number := S754_nan.
Definition pos_zero : number := S754_zero false.

(** The number denoted by an integer literal (rounded to nearest even). *)
Definition num_of_Z (z : Z) : number := binary_normalize js_prec js_emax z 0 false.

(** [x === y] on numbers. *)
Definition num_strict_eq (x y : number) : bool := SFeqb x y.

(** [x % 1]: the remainder of the truncating division by one.  It keeps the
    sign of the dividend, and is [NaN] for [NaN] and the infinities. *)
Definition num_rem_one (x : number) : number :=
  match x with
  | S754_zero s => S754_zero s
  | S754_infinity _ => NaN
  | S754_nan => NaN
  | S754_finite s m e =>
      if (0 <=? e)%Z then S754_zero s
      else
        let frac := (Z.pos m mod 2 ^ (- e))%Z in
        if (frac =? 0)%Z then S754_zero s
        else binary_normalize js_prec js_emax (cond_Zopp s frac) e s
  end.

(** [Math.ceil(x)]. *)
Definition num_ceil (x : number) : number :=
  match x with
  | S754_finite s m e =>
      if (0 <=? e)%Z then x
      else
        let q := (Z.pos m / 2 ^ (- e))%Z in
        if (Z.pos m mod 2 ^ (- e) =? 0)%Z then x
        else if s then binary_normalize js_prec js_emax (- q) 0 true
        else binary_normalize js_prec js_emax (q + 1) 0 false
  | _ => x
  end.

(** ** Errors *)

Inductive exn : Type :=
| TypeError
| RangeError.

Inductive result (A : Type) : Type :=
| Ok (a : A)
| Throw (e : exn).

Arguments Ok {A} a.
Arguments Throw {A} e.

Definition bind {A B : Type} (m : result A) (k : A -> result B) : result B :=
  match m with
  | Ok a => k a
  | Throw e => Throw e
  end.

Notation "'let*' x ':=' m 'in' k" := (bind m (fun x => k))
  (at level 10, x name, m at level 100, k at level 200).

(** [l.forEach(f)] for a callback that updates a local state and may throw. *)
Fixpoint forEach {A S : Type} (l : list A) (f : A -> S -> result S) (s : S) : result S :=
  match l with
  | [] => Ok s
  | x :: l' => let* s' := f x s in forEach l' f s'
  end.

(** [l.map(f)] for a callback that may throw. *)
Fixpoint mapM {A B : Type} (f : A -> result B) (l : list A) : result (list B) :=
  match l with
  | [] => Ok []
  | x :: l' => let* y := f x in let* ys := mapM f l' in Ok (y :: ys)
  end.

(** ** Strings

    A string is a sequence of code units; the code units modelled are those
    below 256. *)

Definition code (c : ascii) : Z := Z.of_nat (nat_of_ascii c).

(** White space skipped by [parseInt]: TAB, LF, VT, FF, CR, SP, NBSP. *)
Definition is_white_space (c : ascii) : bool :=
  let n := code c in
  ((9 <=? n) && (n <=? 13) || (n =? 32) || (n =? 160))%Z.

Fixpoint trim_start (s : string) : string :=
  match s with
  | String c s' => if is_white_space c then trim_start s' else s
  | EmptyString => s
  end.

(** The value of a digit in radix up to 36. *)
Definition digit_value (c : ascii) : option Z :=
  let n := code c in
  if ((48 <=? n) && (n <=? 57))%Z then Some (n - 48)%Z
  else if ((97 <=? n) && (n <=? 122))%Z then Some (n - 87)%Z
  else if ((65 <=? n) && (n <=? 90))%Z then Some (n - 55)%Z
  else None.

(** The integer written by the longest prefix of radix-[R] digits;
    [None] when that prefix is empty. *)
Fixpoint parse_digits (R : Z) (s : string) (acc : option Z) : option Z :=
  match s with
  | String c s' =>
      match digit_value c with
      | Some d =>
          if (d <? R)%Z
          then parse_digits R s' (Some (match acc with Some a => a * R + d | None => d end)%Z)
          else acc
      | None => acc
      end
  | EmptyString => acc
  end.

(** The digits of [parseInt], once white space and sign are gone: the
    prefix [0x] where the radix allows it, then the longest run of digits;
    [NaN] when there is no digit. *)
Definition parseInt_digits (neg : bool) (s : string) (radix : Z) : number :=
  if ((radix =? 0) || ((2 <=? radix) && (radix <=? 36)))%Z then
    let R := if (radix =? 0)%Z then 10%Z else radix in
    let strip := ((radix =? 0) || (radix =? 16))%Z in
    let '(R, digits) :=
      match s with
      | String c (String x r) =>
          if strip && Ascii.eqb c "0" && (Ascii.eqb x "x" || Ascii.eqb x "X")
          then (16%Z, r) else (R, s)
      | _ => (R, s)
      end in
    match parse_digits R digits None with
    | None => NaN
    | Some z => binary_normalize js_prec js_emax (if neg then - z else z)%Z 0 neg
    end
  else NaN.

(** [parseInt(string, radix)] on a string. *)
Definition parseInt_string (s : string) (radix : Z) : number :=
  match trim_start s with
  | String c r =>
      if Ascii.eqb c "-" then parseInt_digits true r radix
      else if Ascii.eqb c "+" then parseInt_digits false r radix
      else parseInt_digits false (String c r) radix
  | EmptyString => parseInt_digits false "" radix
  end.

(** Whether a string has a decimal digit. *)
Definition is_decimal_digit (c : ascii) : bool := ((48 <=? code c) && (code c <=? 57))%Z.

Fixpoint has_digit (s : string) : bool :=
  match s with
  | String c s' => is_decimal_digit c || has_digit s'
  | EmptyString => false
  end.

(** The property key of the array index [i]. *)
Definition index_key (i : nat) : string :=
  NilEmpty.string_of_uint (N.to_uint (N.of_nat i)).

(** The integer a property key denotes, if the key is the canonical numeric
    string of one (no sign, no leading zero). *)
Definition parse_index (k : string) : option N :=
  match NilEmpty.uint_of_string k with
  | Some d =>
      let i := N.of_uint d in
      if String.eqb (NilEmpty.string_of_uint (N.to_uint i)) k then Some i else None
  | None => None
  end.

(** Array indices are the integer keys below 2^32 - 1; an object enumerates
    them first, in ascending order. *)
Definition array_index (k : string) : option N :=
  match parse_index k with
  | Some i => if (i <? 2 ^ 32 - 1)%N then Some i else None
  | None => None
  end.

(** [l[k]] on a dense sequence: the element at index [k], if [k] is an index
    within bounds. *)
Definition lookup_index {A : Type} (l : list A) (k : string) : option A :=
  match parse_index k with
  | Some i => if (i <? N.of_nat (length l))%N then nth_error l (N.to_nat i) else None
  | None => None
  end.

Fixpoint string_chars (s : string) : list string :=
  match s with
  | String c s' => String c EmptyString :: string_chars s'
  | EmptyString => []
  end.

Fixpoint join (sep : string) (l : list string) : string :=
  match l with
  | [] => ""
  | [x] => x
  | x :: l' => String.append x (String.append sep (join sep l'))
  end.

(** ** Property lists

    The own enumerable properties of an object, in enumeration order: the
    array indices in ascending order, then the other keys in the order they
    were created. *)

Fixpoint assoc {A : Type} (k : string) (ps : list (string * A)) : option A :=
  match ps with
  | [] => None
  | (k', v) :: ps' => if String.eqb k' k then Some v else assoc k ps'
  end.

Fixpoint replace_prop {A : Type} (k : string) (v : A) (ps : list (string * A))
  : list (string * A) :=
  match ps with
  | [] => []
  | (k', v') :: ps' =>
      if String.eqb k' k then (k', v) :: ps' else (k', v') :: replace_prop k v ps'
  end.

(** Where a new array-index key [i] goes: before the first key that is not
    an array index or is a larger one. *)
Fixpoint insert_index {A : Type} (i : N) (k : string) (v : A) (ps : list (string * A))
  : list (string * A) :=
  match ps with
  | [] => [(k, v)]
  | (k', v') :: ps' =>
      match array_index k' with
      | Some j => if (j <? i)%N then (k', v') :: insert_index i k v ps' else (k, v) :: ps
      | None => (k, v) :: ps
      end
  end.

(** [o[k] = v] on an object: an existing property keeps its place, a new
    array index is placed among the indices, any other new key comes last.
    Where there is no own property [__proto__], assigning to that key runs
    the setter inherited from [Object.prototype]: it creates no property
    (it changes the prototype of the object, which is not among its own
    properties). *)
Definition set_prop {A : Type} (ps : list (string * A)) (k : string) (v : A)
  : list (string * A) :=
  match assoc k ps with
  | Some _ => replace_prop k v ps
  | None =>
      if String.eqb k "__proto__" then ps
      else
        match array_index k with
        | Some i => insert_index i k v ps
        | None => ps ++ [(k, v)]
        end
  end.

(** ** Values

    The values a parsed request payload is made of.  An object is the list
    of its own enumerable properties in enumeration order, an array the
    dense list of its elements. *)

#[local] Set Warnings "-register-all".

Inductive value : Type :=
| VUndefined
| VNull
| VBool (b : bool)
| VNum (n : number)
| VStr (s : string)
| VArr (elems : list value)
| VObj (props : list (string * value)).

Abbreviation props := (list (string * value)).

(** Nesting depth of a value, the bound on the compiler's recursion. *)
Fixpoint height (v : value) : nat :=
  match v with
  | VArr l => S (list_max (map height l))
  | VObj ps => S (list_max (map (fun p => height (snd p)) ps))
  | _ => 0
  end.

(** * The filter compiler over value trees

    [src/toMongooseFilterExpression] as a function from value trees to
    value trees: what the compiler computes. *)

Module Tree.

(** The plain objects [kind-of] takes for an [Error] or a [RegExp] by their
    shape: a string [message] with a [constructor] that has a numeric
    [stackTraceLimit]; a string [flags] with boolean [ignoreCase],
    [multiline] and [global]. *)
Definition error_shaped (ps : props) : bool :=
  match assoc "message" ps, assoc "constructor" ps with
  | Some (VStr _), Some (VObj c) =>
      match assoc "stackTraceLimit" c with
      | Some (VNum _) => true
      | _ => false
      end
  | _, _ => false
  end.

Definition regexp_shaped (ps : props) : bool :=
  match assoc "flags" ps, assoc "ignoreCase" ps, assoc "multiline" ps, assoc "global" ps with
  | Some (VStr _), Some (VBool _), Some (VBool _), Some (VBool _) => true
  | _, _, _, _ => false
  end.

(** [kindOf(v)] of the [kind-of] package. *)
Definition kindOf (v : value) : string :=
  match v with
  | VUndefined => "undefined"
  | VNull => "null"
  | VBool _ => "boolean"
  | VNum _ => "number"
  | VStr _ => "string"
  | VArr _ => "array"
  | VObj ps =>
      if error_shaped ps then "error"
      else if regexp_shaped ps then "regexp"
      else "object"
  end.

(** [a === b] against a string constant. *)
Definition strict_eq_string (v : value) (s : string) : bool :=
  match v with
  | VStr t => String.eqb t s
  | _ => false
  end.

(** [Object.keys(v)]: it throws on [undefined] and [null], and enumerates
    the indices of a string or an array. *)
Definition Object_keys (v : value) : result (list string) :=
  match v with
  | VUndefined | VNull => Throw TypeError
  | VBool _ | VNum _ => Ok []
  | VStr s => Ok (map index_key (seq 0 (String.length s)))
  | VArr l => Ok (map index_key (seq 0 (length l)))
  | VObj ps => Ok (map fst ps)
  end.

Definition or_undefined (o : option value) : value :=
  match o with
  | Some v => v
  | None => VUndefined
  end.

(** [v[k]]: reading a property throws on [undefined] and [null], and yields
    [undefined] where there is no own property [k].  (The keys this code
    reads are own keys, ["undefined"], ["0"] and ["1"]: none of them names a
    property inherited from a built-in prototype.)  A string and an array
    also have their [length]. *)
Definition get (v : value) (k : string) : result value :=
  match v with
  | VUndefined | VNull => Throw TypeError
  | VBool _ | VNum _ => Ok VUndefined
  | VStr s =>
      if String.eqb k "length" then Ok (VNum (num_of_Z (Z.of_nat (String.length s))))
      else Ok (or_undefined (lookup_index (map VStr (string_chars s)) k))
  | VArr l =>
      if String.eqb k "length" then Ok (VNum (num_of_Z (Z.of_nat (length l))))
      else Ok (or_undefined (lookup_index l k))
  | VObj ps => Ok (or_undefined (assoc k ps))
  end.

(** [a[0]] of an array of keys. *)
Definition first_key (keys : list string) : value :=
  match keys with
  | k :: _ => VStr k
  | [] => VUndefined
  end.

(** The own enumerable properties [Object.assign] copies from a source. *)
Definition own_entries (v : value) : props :=
  match v with
  | VStr s => combine (map index_key (seq 0 (String.length s))) (map VStr (string_chars s))
  | VArr l => combine (map index_key (seq 0 (length l))) l
  | VObj ps => ps
  | _ => []
  end.

(** [Object.assign(target, source)], on the properties of [target]. *)
Definition Object_assign (target : props) (source : value) : props :=
  fold_left (fun t p => set_prop t (fst p) (snd p)) (own_entries source) target.

Section Runtime.

(** [Number::toString] and [StringToNumber] of the language runtime. *)
Variable Number_toString : number -> string.
Variable StringToNumber : string -> number.

(** [String(v)].  An object is first turned into a primitive by its
    [toString] method: the inherited one answers ["[object Object]"]; an own
    property [toString] hides it, is not a function (no value here is), and
    the conversion throws.  An array joins its elements with commas,
    [undefined] and [null] elements giving the empty string. *)
Fixpoint ToString (v : value) : result string :=
  match v with
  | VUndefined => Ok "undefined"
  | VNull => Ok "null"
  | VBool true => Ok "true"
  | VBool false => Ok "false"
  | VNum n => Ok (Number_toString n)
  | VStr s => Ok s
  | VArr l =>
      let* parts :=
        (fix each (l : list value) : result (list string) :=
           match l with
           | [] => Ok []
           | x :: l' =>
               let* s := match x with
                         | VUndefined | VNull => Ok ""
                         | _ => ToString x
                         end in
               let* ss := each l' in
               Ok (s :: ss)
           end) l in
      Ok (join "," parts)
  | VObj ps =>
      match assoc "toString" ps with
      | Some _ => Throw TypeError
      | None => Ok "[object Object]"
      end
  end.

(** [Number(v)]; an object goes through the same conversion to a
    primitive. *)
Definition ToNumber (v : value) : result number :=
  match v with
  | VUndefined => Ok NaN
  | VNull => Ok pos_zero
  | VBool true => Ok (num_of_Z 1)
  | VBool false => Ok pos_zero
  | VNum n => Ok n
  | VStr s => Ok (StringToNumber s)
  | VArr _ | VObj _ => let* s := ToString v in Ok (StringToNumber s)
  end.

(** [parseInt(v, radix)]. *)
Definition parseInt (v : value) (radix : Z) : result number :=
  let* s := ToString v in Ok (parseInt_string s radix).

(** *** src/toMongooseFilterExpression *)

(** [getTypeof(fieldType, fieldValue)]; [fieldValue % 1] is evaluated only
    where [fieldType === 'number']. *)
Definition getTypeof (fieldType fieldValue : value) : result string :=
  let newType := kindOf fieldType in
  let* whole :=
    if strict_eq_string fieldType "number"
    then let* n := ToNumber fieldValue in Ok (num_strict_eq (num_rem_one n) pos_zero)
    else Ok false in
  let newType := if whole then "int" else newType in
  let* fractional :=
    if strict_eq_string fieldType "number"
    then let* n := ToNumber fieldValue in Ok (negb (num_strict_eq (num_rem_one n) pos_zero))
    else Ok false in
  let newType := if fractional then "float" else newType in
  Ok newType.

Definition convertContains (fieldType : string) (fieldValue : value) : value :=
  if negb (String.eqb fieldType "string") then fieldValue
  else VObj [("$regex", fieldValue); ("$options", VStr "i")].

Definition convertNotContains (fieldType : string) (fieldValue : value) : value :=
  if negb (String.eqb fieldType "string") then fieldValue
  else VObj [("$not", VObj [("$regex", fieldValue); ("$options", VStr "i")])].

Definition convertStartsWith (fieldType : string) (fieldValue : value) : result value :=
  if negb (String.eqb fieldType "string") then Ok fieldValue
  else
    let* text := ToString fieldValue in
    Ok (VObj [("$regex", VStr (String.append "^" text)); ("$options", VStr "i")]).

Definition convertEndsWith (fieldType : string) (fieldValue : value) : result value :=
  if negb (String.eqb fieldType "string") then Ok fieldValue
  else
    let* text := ToString fieldValue in
    Ok (VObj [("$regex", VStr (String.append text "$")); ("$options", VStr "i")]).

Definition convertIn (fieldType : string) (fieldValue : value) : value :=
  if negb (String.eqb fieldType "array") then fieldValue
  else VObj [("$in", fieldValue)].

(** The compiler is recursive through [convertLogicalOperator]; the
    functions below take the compiler itself as [self]. *)
Section Open.

Variable self : value -> result value.

Definition convertLogicalOperator
  (fieldType : string) (fieldValue : value) (fieldName : value) : result value :=
  if negb (String.eqb fieldType "array") then Ok fieldValue
  else
    let* name := ToString fieldName in
    let operator := String.append "$" name in
    match fieldValue with
    | VArr statements =>
        let* compiled :=
          forEach statements
            (fun statement acc => let* c := self statement in Ok (acc ++ [c])) [] in
        Ok (VObj [(operator, VArr compiled)])
    | _ => Throw TypeError
    end.

Definition convertSearchOperator
  (fieldName : value) (fieldType : string) (fieldValue : value) : result value :=
  if strict_eq_string fieldName "ne" then Ok (VObj [("$ne", fieldValue)])
  else if strict_eq_string fieldName "eq" then Ok fieldValue
  else if strict_eq_string fieldName "le" then Ok (VObj [("$lte", fieldValue)])
  else if strict_eq_string fieldName "lt" then Ok (VObj [("$lt", fieldValue)])
  else if strict_eq_string fieldName "ge" then Ok (VObj [("$gte", fieldValue)])
  else if strict_eq_string fieldName "gt" then Ok (VObj [("$gt", fieldValue)])
  else if strict_eq_string fieldName "exists" then
    let* n := parseInt fieldValue 0 in
    Ok (VObj [("$exists", VNum n)])
  else if strict_eq_string fieldName "contains" then
    Ok (convertContains fieldType fieldValue)
  else if strict_eq_string fieldName "notContains" then
    Ok (convertNotContains fieldType fieldValue)
  else if strict_eq_string fieldName "between" then
    let* lo := get fieldValue "0" in
    let* hi := get fieldValue "1" in
    Ok (VObj [("$gte", lo); ("$lte", hi)])
  else if strict_eq_string fieldName "startsWith" then
    convertStartsWith fieldType fieldValue
  else if strict_eq_string fieldName "endsWith" then
    convertEndsWith fieldType fieldValue
  else if strict_eq_string fieldName "in" then
    Ok (convertIn fieldType fieldValue)
  else if strict_eq_string fieldName "or" || strict_eq_string fieldName "and" then
    convertLogicalOperator fieldType fieldValue fieldName
  else Ok fieldValue.

(** The callback of [fields.forEach] in the driver: one field of
    [filter], with [transferedFilter] as the state. *)
Definition transferField (filter : value) (field : string) (transferedFilter : props)
  : result props :=
  let* value_of_field := get filter field in
  let isTypeOf := kindOf value_of_field in
  let* keys := Object_keys value_of_field in
  let fieldSearchType := first_key keys in
  let* key := ToString fieldSearchType in
  let* fieldValue := get value_of_field key in
  let* fieldType := getTypeof fieldValue VUndefined in
  if String.eqb isTypeOf "object" then
    let* node := convertSearchOperator fieldSearchType fieldType fieldValue in
    Ok (set_prop transferedFilter field node)
  else if String.eqb isTypeOf "array" then
    let* node := convertSearchOperator (VStr field) isTypeOf value_of_field in
    Ok (Object_assign transferedFilter node)
  else
    Ok (set_prop transferedFilter field value_of_field).

(** The body of [toMongooseFilterExpression(filter = {})]. *)
Definition toMongooseFilterExpression_body (filter : value) : result value :=
  let filter := match filter with VUndefined => VObj [] | _ => filter end in
  let* fields := Object_keys filter in
  let* transferedFilter := forEach fields (transferField filter) [] in
  Ok (VObj transferedFilter).

End Open.

(** The compiler with a call stack of bounded depth; a deeper recursion
    ends in a [RangeError]. *)
Fixpoint toMongooseFilterExpression_at (depth : nat) (filter : value) : result value :=
  match depth with
  | O => Throw RangeError
  | S d => toMongooseFilterExpression_body (toMongooseFilterExpression_at d) filter
  end.

(** [toMongooseFilterExpression(filter)]: the recursion follows the nesting
    of [filter], so a stack as deep as the value is enough. *)
Definition toMongooseFilterExpression (filter : value) : result value :=
  toMongooseFilterExpression_at (S (height filter)) filter.

End Runtime.

End Tree.

(** * The code over a store of mutable objects

    Objects and arrays are cells of a heap and values refer to them by
    location, so that mutation in place, sharing and identity ([===] on
    objects) are visible.  An array is a cell with a length and index
    properties; a property list is kept in own-property enumeration order. *)

Module Store.

Abbreviation loc := nat.

(** Values; [SErr e] is an error object created by the runtime itself. *)
Inductive sval : Type :=
| SUndefined
| SNull
| SBool (b : bool)
| SNum (n : number)
| SStr (s : string)
| SErr (e : exn)
| SRef (l : loc).

Abbreviation sprops := (list (string * sval)).

Inductive cell : Type :=
| CObj (ps : sprops)
| CArr (len : nat) (ps : sprops).

Abbreviation heap := (list cell).

Definition cell_props (c : cell) : sprops :=
  match c with
  | CObj ps => ps
  | CArr _ ps => ps
  end.

(** The cell a reference denotes.  References come from allocation only,
    so the default (an empty object) is never used on a reachable one. *)
Definition cell_at (h : heap) (l : loc) : cell := default (CObj []) (h !! l).

(** The cell of the array literal [[x0, x1, ...]]. *)
Definition array_cell (elems : list sval) : cell :=
  CArr (length elems) (combine (map index_key (seq 0 (length elems))) elems).

(** ** Computations: a heap threaded through, and exceptions *)

Inductive outcome (A : Type) : Type :=
| Return (a : A)
| Raise (e : sval).

Arguments Return {A} a.
Arguments Raise {A} e.

(** Sequencing of reads that may throw. *)
Definition and_then {A B : Type} (o : outcome A) (k : A -> outcome B) : outcome B :=
  match o with
  | Return a => k a
  | Raise e => Raise e
  end.

Notation "'let?' x ':=' o 'in' k" := (and_then o (fun x => k))
  (at level 10, x name, o at level 100, k at level 200).

Definition M (A : Type) : Type := heap -> outcome A * heap.

Definition ret {A : Type} (a : A) : M A := fun h => (Return a, h).

Definition raise {A : Type} (e : sval) : M A := fun h => (Raise e, h).

Definition bind {A B : Type} (m : M A) (k : A -> M B) : M B :=
  fun h =>
    match m h with
    | (Return a, h') => k a h'
    | (Raise e, h') => (Raise e, h')
    end.

Notation "'let!' x ':=' m 'in' k" := (bind m (fun x => k))
  (at level 10, x name, m at level 100, k at level 200).

(** A pure read of the current heap. *)
Definition reading {A : Type} (f : heap -> A) : M A := fun h => (Return (f h), h).

(** A read of the current heap that may throw. *)
Definition reading_or_throw {A : Type} (f : heap -> outcome A) : M A := fun h => (f h, h).

(** Evaluation of an object or array literal: a new cell. *)
Definition alloc (c : cell) : M loc := fun h => (Return (length h), h ++ [c]).

(** An object literal [{k1: v1, ...}] and an array literal [[x0, ...]]. *)
Definition new_object (ps : sprops) : M sval :=
  fun h => (Return (SRef (length h)), h ++ [CObj ps]).

Definition new_array (elems : list sval) : M sval :=
  fun h => (Return (SRef (length h)), h ++ [array_cell elems]).

Definition write (l : loc) (c : cell) : M unit := fun h => (Return tt, <[l := c]> h).

Fixpoint forEach {A S : Type} (l : list A) (f : A -> S -> M S) (s : S) : M S :=
  match l with
  | [] => ret s
  | x :: l' => let! s' := f x s in forEach l' f s'
  end.

(** ** Runtime *)

(** The plain objects [kind-of] takes for an [Error] or a [RegExp] by their
    shape. *)
Definition error_shaped (h : heap) (ps : sprops) : bool :=
  match assoc "message" ps, assoc "constructor" ps with
  | Some (SStr _), Some (SRef c) =>
      match assoc "stackTraceLimit" (cell_props (cell_at h c)) with
      | Some (SNum _) => true
      | _ => false
      end
  | _, _ => false
  end.

Definition regexp_shaped (ps : sprops) : bool :=
  match assoc "flags" ps, assoc "ignoreCase" ps, assoc "multiline" ps, assoc "global" ps with
  | Some (SStr _), Some (SBool _), Some (SBool _), Some (SBool _) => true
  | _, _, _, _ => false
  end.

(** [kindOf(v)] of the [kind-of] package. *)
Definition kindOf (h : heap) (v : sval) : string :=
  match v with
  | SUndefined => "undefined"
  | SNull => "null"
  | SBool _ => "boolean"
  | SNum _ => "number"
  | SStr _ => "string"
  | SErr _ => "error"
  | SRef l =>
      match cell_at h l with
      | CObj ps =>
          if error_shaped h ps then "error"
          else if regexp_shaped ps then "regexp"
          else "object"
      | CArr _ _ => "array"
      end
  end.

Definition strict_eq_string (v : sval) (s : string) : bool :=
  match v with
  | SStr t => String.eqb t s
  | _ => false
  end.

(** [a === b]: objects are equal when they are the same object; [NaN] is
    not equal to itself. *)
Definition strict_equals (a b : sval) : bool :=
  match a, b with
  | SUndefined, SUndefined => true
  | SNull, SNull => true
  | SBool x, SBool y => Bool.eqb x y
  | SNum x, SNum y => num_strict_eq x y
  | SStr x, SStr y => String.eqb x y
  | SRef x, SRef y => Nat.eqb x y
  | _, _ => false
  end.

(** [!!v]. *)
Definition truthy (v : sval) : bool :=
  match v with
  | SUndefined | SNull => false
  | SBool b => b
  | SNum n => negb (num_strict_eq n pos_zero) && negb (match n with S754_nan => true | _ => false end)
  | SStr s => negb (String.eqb s "")
  | SErr _ | SRef _ => true
  end.

Definition Object_keys (h : heap) (v : sval) : outcome (list string) :=
  match v with
  | SUndefined | SNull => Raise (SErr TypeError)
  | SBool _ | SNum _ | SErr _ => Return []
  | SStr s => Return (map index_key (seq 0 (String.length s)))
  | SRef l => Return (map fst (cell_props (cell_at h l)))
  end.

Definition or_undefined (o : option sval) : sval :=
  match o with
  | Some v => v
  | None => SUndefined
  end.

(** [v[k]]. *)
Definition get (h : heap) (v : sval) (k : string) : outcome sval :=
  match v with
  | SUndefined | SNull => Raise (SErr TypeError)
  | SBool _ | SNum _ | SErr _ => Return SUndefined
  | SStr s =>
      if String.eqb k "length" then Return (SNum (num_of_Z (Z.of_nat (String.length s))))
      else Return (or_undefined (lookup_index (map SStr (string_chars s)) k))
  | SRef l =>
      match cell_at h l with
      | CObj ps => Return (or_undefined (assoc k ps))
      | CArr len ps =>
          if String.eqb k "length" then Return (SNum (num_of_Z (Z.of_nat len)))
          else Return (or_undefined (assoc k ps))
      end
  end.

Definition first_key (keys : list string) : sval :=
  match keys with
  | k :: _ => SStr k
  | [] => SUndefined
  end.

(** The cell after [o[k] = v]; writing an index at or beyond the length
    of an array extends it. *)
Definition cell_set (c : cell) (k : string) (v : sval) : cell :=
  match c with
  | CObj ps => CObj (set_prop ps k v)
  | CArr len ps =>
      match array_index k with
      | Some i => CArr (Nat.max len (S (N.to_nat i))) (set_prop ps k v)
      | None => CArr len (set_prop ps k v)
      end
  end.

(** [o[k] = v] for an object [o]. *)
Definition set (l : loc) (k : string) (v : sval) : M unit :=
  fun h => write l (cell_set (cell_at h l) k v) h.

Definition delete_prop (ps : sprops) (k : string) : sprops :=
  List.filter (fun p => negb (String.eqb (fst p) k)) ps.

(** [delete o[k]]; the length of an array stays. *)
Definition delete_property (l : loc) (k : string) : M unit :=
  fun h =>
    match cell_at h l with
    | CObj ps => write l (CObj (delete_prop ps k)) h
    | CArr len ps => write l (CArr len (delete_prop ps k)) h
    end.

(** [a.push(v)]. *)
Definition push (a : sval) (v : sval) : M unit :=
  fun h =>
    match a with
    | SRef l =>
        match cell_at h l with
        | CArr len ps => write l (CArr (S len) (set_prop ps (index_key len) v)) h
        | CObj _ => (Raise (SErr TypeError), h)
        end
    | _ => (Raise (SErr TypeError), h)
    end.

(** [a.forEach(f)]: the length is read once, each element when its turn
    comes, and missing elements are skipped. *)
Fixpoint array_forEach {S : Type} (a : loc) (indices : list nat)
    (f : sval -> S -> M S) (s : S) : M S :=
  match indices with
  | [] => ret s
  | i :: rest =>
      fun h =>
        match assoc (index_key i) (cell_props (cell_at h a)) with
        | Some x => (let! s' := f x s in array_forEach a rest f s') h
        | None => array_forEach a rest f s h
        end
  end.

(** The own enumerable properties of a value, as [Object.assign] reads
    them. *)
Definition own_entries (h : heap) (v : sval) : sprops :=
  match v with
  | SStr s => combine (map index_key (seq 0 (String.length s))) (map SStr (string_chars s))
  | SRef l => cell_props (cell_at h l)
  | _ => []
  end.

(** [Object.assign(target, source)] for an object [target]; it returns
    [target]. *)
Definition Object_assign (target : loc) (source : sval) : M loc :=
  let! entries := reading (fun h => own_entries h source) in
  let! _ := forEach entries (fun p (_ : unit) => set target (fst p) (snd p)) tt in
  ret target.

Section Runtime.

(** [Number::toString], [StringToNumber] and the text of an error
    object, of the language runtime. *)
Variable Number_toString : number -> string.
Variable StringToNumber : string -> number.
Variable Error_toString : exn -> string.

(** [String(v)].  An object or array is first turned into a primitive by
    its [toString] method: an own property [toString] hides the inherited
    method, is not a function (no value here is), and the conversion
    throws.  The method of an object answers ["[object Object]"]; the
    method of an array joins the elements (or answers ["[object Array]"]
    when an own property hides [join]).  Joining an array that is already
    being joined gives the empty string; [visiting] holds the arrays being
    joined, and there are at most as many as the heap has cells. *)
Fixpoint ToString_at (fuel : nat) (visiting : list loc) (h : heap) (v : sval)
  : outcome string :=
  match v with
  | SUndefined => Return "undefined"
  | SNull => Return "null"
  | SBool true => Return "true"
  | SBool false => Return "false"
  | SNum n => Return (Number_toString n)
  | SStr s => Return s
  | SErr e => Return (Error_toString e)
  | SRef l =>
      match assoc "toString" (cell_props (cell_at h l)) with
      | Some _ => Raise (SErr TypeError)
      | None =>
          match cell_at h l with
          | CObj _ => Return "[object Object]"
          | CArr len ps =>
              match assoc "join" ps with
              | Some _ => Return "[object Array]"
              | None =>
                  if existsb (Nat.eqb l) visiting then Return ""
                  else
                    match fuel with
                    | O => Return ""
                    | S fuel' =>
                        let? parts :=
                          (fix each (indices : list nat) : outcome (list string) :=
                             match indices with
                             | [] => Return []
                             | i :: rest =>
                                 let? s :=
                                   match assoc (index_key i) ps with
                                   | None | Some SUndefined | Some SNull => Return ""
                                   | Some x => ToString_at fuel' (l :: visiting) h x
                                   end in
                                 let? ss := each rest in
                                 Return (s :: ss)
                             end) (seq 0 len) in
                        Return (join "," parts)
                    end
              end
          end
      end
  end.

Definition ToString (h : heap) (v : sval) : outcome string :=
  ToString_at (S (length h)) [] h v.

Definition ToNumber (h : heap) (v : sval) : outcome number :=
  match v with
  | SUndefined => Return NaN
  | SNull => Return pos_zero
  | SBool true => Return (num_of_Z 1)
  | SBool false => Return pos_zero
  | SNum n => Return n
  | SStr s => Return (StringToNumber s)
  | SErr _ | SRef _ => let? s := ToString h v in Return (StringToNumber s)
  end.

Definition parseInt (h : heap) (v : sval) (radix : Z) : outcome number :=
  let? s := ToString h v in Return (parseInt_string s radix).

(** *** src/toMongooseFilterExpression *)

Definition getTypeof (h : heap) (fieldType fieldValue : sval) : outcome string :=
  let newType := kindOf h fieldType in
  let? whole :=
    if strict_eq_string fieldType "number"
    then let? n := ToNumber h fieldValue in
         Return (num_strict_eq (num_rem_one n) pos_zero)
    else Return false in
  let newType := if whole then "int" else newType in
  let? fractional :=
    if strict_eq_string fieldType "number"
    then let? n := ToNumber h fieldValue in
         Return (negb (num_strict_eq (num_rem_one n) pos_zero))
    else Return false in
  let newType := if fractional then "float" else newType in
  Return newType.

Definition convertContains (fieldType : string) (fieldValue : sval) : M sval :=
  if negb (String.eqb fieldType "string") then ret fieldValue
  else new_object [("$regex", fieldValue); ("$options", SStr "i")].

Definition convertNotContains (fieldType : string) (fieldValue : sval) : M sval :=
  if negb (String.eqb fieldType "string") then ret fieldValue
  else
    let! inner := new_object [("$regex", fieldValue); ("$options", SStr "i")] in
    new_object [("$not", inner)].

Definition convertStartsWith (fieldType : string) (fieldValue : sval) : M sval :=
  if negb (String.eqb fieldType "string") then ret fieldValue
  else
    let! text := reading_or_throw (fun h => ToString h fieldValue) in
    new_object [("$regex", SStr (String.append "^" text)); ("$options", SStr "i")].

Definition convertEndsWith (fieldType : string) (fieldValue : sval) : M sval :=
  if negb (String.eqb fieldType "string") then ret fieldValue
  else
    let! text := reading_or_throw (fun h => ToString h fieldValue) in
    new_object [("$regex", SStr (String.append text "$")); ("$options", SStr "i")].

Definition convertIn (fieldType : string) (fieldValue : sval) : M sval :=
  if negb (String.eqb fieldType "array") then ret fieldValue
  else new_object [("$in", fieldValue)].

Section Open.

Variable self : sval -> M sval.

Definition convertLogicalOperator
  (fieldType : string) (fieldValue : sval) (fieldName : sval) : M sval :=
  if negb (String.eqb fieldType "array") then ret fieldValue
  else
    let! name := reading_or_throw (fun h => ToString h fieldName) in
    let operator := String.append "$" name in
    let! list := new_array [] in
    let! result := new_object [(operator, list)] in
    let! kind := reading (fun h => kindOf h fieldValue) in
    match fieldValue with
    | SRef a =>
        if String.eqb kind "array" then
          let! len := reading (fun h => match cell_at h a with
                                       | CArr len _ => len
                                       | CObj _ => 0
                                       end) in
          let! _ :=
            array_forEach a (seq 0 len)
              (fun statement (_ : unit) =>
                 let! compiled := self statement in
                 let! target := reading_or_throw (fun h => get h result operator) in
                 push target compiled) tt in
          ret result
        else raise (SErr TypeError)
    | _ => raise (SErr TypeError)
    end.

Definition convertSearchOperator
  (fieldName : sval) (fieldType : string) (fieldValue : sval) : M sval :=
  if strict_eq_string fieldName "ne" then new_object [("$ne", fieldValue)]
  else if strict_eq_string fieldName "eq" then ret fieldValue
  else if strict_eq_string fieldName "le" then new_object [("$lte", fieldValue)]
  else if strict_eq_string fieldName "lt" then new_object [("$lt", fieldValue)]
  else if strict_eq_string fieldName "ge" then new_object [("$gte", fieldValue)]
  else if strict_eq_string fieldName "gt" then new_object [("$gt", fieldValue)]
  else if strict_eq_string fieldName "exists" then
    let! n := reading_or_throw (fun h => parseInt h fieldValue 0) in
    new_object [("$exists", SNum n)]
  else if strict_eq_string fieldName "contains" then
    convertContains fieldType fieldValue
  else if strict_eq_string fieldName "notContains" then
    convertNotContains fieldType fieldValue
  else if strict_eq_string fieldName "between" then
    let! lo := reading_or_throw (fun h => get h fieldValue "0") in
    let! hi := reading_or_throw (fun h => get h fieldValue "1") in
    new_object [("$gte", lo); ("$lte", hi)]
  else if strict_eq_string fieldName "startsWith" then
    convertStartsWith fieldType fieldValue
  else if strict_eq_string fieldName "endsWith" then
    convertEndsWith fieldType fieldValue
  else if strict_eq_string fieldName "in" then
    convertIn fieldType fieldValue
  else if strict_eq_string fieldName "or" || strict_eq_string fieldName "and" then
    convertLogicalOperator fieldType fieldValue fieldName
  else ret fieldValue.

(** The callback of [fields.forEach]; the state is the variable
    [transferedFilter]. *)
Definition transferField (filter : sval) (field : string) (transferedFilter : loc)
  : M loc :=
  let! value_of_field := reading_or_throw (fun h => get h filter field) in
  let! isTypeOf := reading (fun h => kindOf h value_of_field) in
  let! keys := reading_or_throw (fun h => Object_keys h value_of_field) in
  let fieldSearchType := first_key keys in
  let! key := reading_or_throw (fun h => ToString h fieldSearchType) in
  let! fieldValue := reading_or_throw (fun h => get h value_of_field key) in
  let! fieldType := reading_or_throw (fun h => getTypeof h fieldValue SUndefined) in
  if String.eqb isTypeOf "object" then
    let! node := convertSearchOperator fieldSearchType fieldType fieldValue in
    let! _ := set transferedFilter field node in
    ret transferedFilter
  else if String.eqb isTypeOf "array" then
    let! node := convertSearchOperator (SStr field) isTypeOf value_of_field in
    Object_assign transferedFilter node
  else
    let! _ := set transferedFilter field value_of_field in
    ret transferedFilter.

Definition toMongooseFilterExpression_body (filter : sval) : M sval :=
  let! filter :=
    match filter with
    | SUndefined => new_object []
    | _ => ret filter
    end in
  let! fields := reading_or_throw (fun h => Object_keys h filter) in
  let! transferedFilter := alloc (CObj []) in
  let! transferedFilter := forEach fields (transferField filter) transferedFilter in
  ret (SRef transferedFilter).

End Open.

(** The compiler with a call stack of bounded depth; on a heap the
    input may be cyclic, and the recursion then ends in a
    [RangeError]. *)
Fixpoint toMongooseFilterExpression (stack : nat) (filter : sval) : M sval :=
  match stack with
  | O => raise (SErr RangeError)
  | S d => toMongooseFilterExpression_body (toMongooseFilterExpression d) filter
  end.


(** *** src/cleanDocumentUpdate *)

(** [delete v[k]]: only an object has properties to remove. *)
Definition delete_of (v : sval) (k : string) : M unit :=
  match v with
  | SRef l => delete_property l k
  | _ => ret tt
  end.

Definition cleanDocumentUpdate (documentUpdate : sval) : M sval :=
  let! keys := reading_or_throw (fun h => Object_keys h documentUpdate) in
  let! _ :=
    forEach keys
      (fun key (_ : unit) =>
         let! current := reading_or_throw (fun h => get h documentUpdate key) in
         if negb (truthy current) then delete_of documentUpdate key else ret tt) tt in
  ret documentUpdate.

(** *** index.js: class MongooseDataSource *)

Definition PAGINATION_DEFAULT_LIMIT : number := num_of_Z 20.

(** The instance: [this.options]. *)
Record MongooseDataSource : Type := { options : sval }.

(** What the data source asks of Mongoose: a query built and executed, a
    document method, a constructor.  Each either gives a value or
    throws (a rejected promise, when awaited). *)
Inductive call : Type :=
| Model_findOne (filter projection : sval)
| Model_find (filter : sval)
| Model_find_sort (filter reduction sort : sval)
| Model_estimatedDocumentCount
| Model_countDocuments (filter : sval)
| Model_find_sort_skip_limit (filter sort skip limit : sval)
| Model_aggregate (pipeline : sval)
| Model_findById (id : sval)
| Model_new (document : sval)
| Document_save (document : sval)
| Document_deleteOne (document : sval)
| Model_deleteMany (filter : sval)
| Model_updateMany (filter update : sval)
| Model_findOneAndUpdate (conditions update opts : sval)
| ObjectId (id : sval).

Inductive reply : Type :=
| Resolved (v : sval)
| Rejected (e : sval).

(** How the promise of an [async] method ends. *)
Inductive settled : Type :=
| Fulfilled (v : sval)
| RejectedWith (e : sval).

(** An [async] method from a given heap on: it settles, or makes a call
    and goes on with the reply and the heap the call leaves. *)
Inductive task : Type :=
| Settle (r : settled) (h : heap)
| Call (c : call) (h : heap) (k : reply -> heap -> task).

(** [catch (err) { return err }], [catch (err) { return null }], and no
    handler at all. *)
Definition return_error (e : sval) (h : heap) : task := Settle (Fulfilled e) h.
Definition return_null (e : sval) (h : heap) : task := Settle (Fulfilled SNull) h.
Definition uncaught (e : sval) (h : heap) : task := Settle (RejectedWith e) h.

(** Synchronous code [m], then [k]; [handler] takes what [m] throws. *)
Definition sync {A : Type} (m : M A) (handler : sval -> heap -> task)
    (k : A -> heap -> task) (h : heap) : task :=
  match m h with
  | (Return a, h') => k a h'
  | (Raise e, h') => handler e h'
  end.

(** A call, then [k] on its value; [handler] takes what it throws. *)
Definition calling (c : call) (handler : sval -> heap -> task)
    (k : sval -> heap -> task) (h : heap) : task :=
  Call c h (fun r h' =>
              match r with
              | Resolved v => k v h'
              | Rejected e => handler e h'
              end).

(** [await t], then [k] on the way [t] settled. *)
Fixpoint awaiting (t : task) (k : settled -> heap -> task) : task :=
  match t with
  | Settle r h => k r h
  | Call c h k' => Call c h (fun r h' => awaiting (k' r h') k)
  end.

(** A parameter or destructured field with a default: the default is
    evaluated when the value is [undefined]. *)
Definition with_default (v : sval) (default : M sval) : M sval :=
  match v with
  | SUndefined => default
  | _ => ret v
  end.

Definition field_with_default (o : sval) (k : string) (default : M sval) : M sval :=
  let! v := reading_or_throw (fun h => get h o k) in
  with_default v default.

(** [a - b], [a * b], [a / b], [a < b] with a number on one side, and
    [a + b] with a number on the right; the operands are converted from
    left to right, and a conversion may throw. *)
Definition js_sub (h : heap) (a b : sval) : outcome number :=
  let? x := ToNumber h a in
  let? y := ToNumber h b in
  Return (SFsub js_prec js_emax x y).
Definition js_mul (h : heap) (a b : sval) : outcome number :=
  let? x := ToNumber h a in
  let? y := ToNumber h b in
  Return (SFmul js_prec js_emax x y).
Definition js_div (h : heap) (a b : sval) : outcome number :=
  let? x := ToNumber h a in
  let? y := ToNumber h b in
  Return (SFdiv js_prec js_emax x y).
Definition js_lt (h : heap) (a b : sval) : outcome bool :=
  let? x := ToNumber h a in
  let? y := ToNumber h b in
  Return (SFltb x y).
Definition js_add_number (h : heap) (a : sval) (n : number) : outcome sval :=
  match a with
  | SStr _ | SErr _ | SRef _ =>
      let? text := ToString h a in
      Return (SStr (String.append text (Number_toString n)))
  | _ =>
      let? x := ToNumber h a in
      Return (SNum (SFadd js_prec js_emax x n))
  end.

(** [Math.ceil(totalCount / limit)]. *)
Definition total_pages (h : heap) (totalCount limit : sval) : outcome sval :=
  let? q := js_div h totalCount limit in
  Return (SNum (num_ceil q)).

(** The object [list] and [listAggregation] return; its properties are
    evaluated in the order they are written. *)
Definition page_object (totalCount page limit node : sval) : M sval :=
  let! fields :=
    reading_or_throw (fun h =>
      let one := SNum (num_of_Z 1) in
      let? hasPrevPage := js_lt h one page in
      let? pages := total_pages h totalCount limit in
      let? hasNextPage := js_lt h page pages in
      let? totalPages := total_pages h totalCount limit in
      let? prev := js_lt h one page in
      let? prevPage :=
        if prev then let? n := js_sub h page one in Return (SNum n)
        else Return (SNum (num_of_Z 0)) in
      let? pages' := total_pages h totalCount limit in
      let? next := js_lt h page pages' in
      let? nextPage :=
        if next then js_add_number h page (num_of_Z 1)
        else Return (SNum (num_of_Z 0)) in
      Return [("totalCount", totalCount);
              ("currentPage", page);
              ("hasPrevPage", SBool hasPrevPage);
              ("hasNextPage", SBool hasNextPage);
              ("totalPages", totalPages);
              ("prevPage", prevPage);
              ("nextPage", nextPage);
              ("node", node)]) in
  new_object fields.

Section Methods.

(** The instance, and the depth of the call stack left to the filter
    compiler. *)
Variable this : MongooseDataSource.
Variable stack : nat.

Definition findOne (filter projection : sval) (h : heap) : task :=
  sync (with_default filter (new_object [])) uncaught (fun filter =>
  sync (with_default projection (new_object [])) uncaught (fun projection =>
  calling (Model_findOne filter projection) return_error (fun document h =>
  Settle (Fulfilled document) h))) h.

Definition find (filter : sval) (h : heap) : task :=
  sync (with_default filter (new_object [])) uncaught (fun filter =>
  calling (Model_find filter) return_error (fun documents h =>
  Settle (Fulfilled documents) h)) h.

Definition all (opts : sval) (h : heap) : task :=
  sync (with_default opts (new_object [])) uncaught (fun opts =>
  sync (reading_or_throw (fun h => get h opts "filter")) uncaught (fun f =>
  sync (toMongooseFilterExpression stack f) uncaught (fun filter =>
  sync (field_with_default opts "reduction" (ret SNull)) uncaught (fun reduction =>
  sync (field_with_default opts "sort" (ret SNull)) uncaught (fun sort =>
  calling (Model_find_sort filter reduction sort) return_error (fun documents h =>
  Settle (Fulfilled documents) h)))))) h.

(** The count of [list]: the compiled filter is compared with a new
    empty object. *)
Definition count_total (datafilter : sval) (handler : sval -> heap -> task)
    (k : bool -> sval -> heap -> task) (h : heap) : task :=
  sync (new_object []) handler (fun empty =>
    if strict_equals datafilter empty then
      calling Model_estimatedDocumentCount handler (k true)
    else
      calling (Model_countDocuments datafilter) handler (k false)) h.

(** [list(options)]; named [list_] here, [list] being the type of lists. *)
Definition list_ (opts : sval) (h : heap) : task :=
  sync (with_default opts (new_object [])) uncaught (fun opts =>
  sync (field_with_default opts "page" (ret (SNum (num_of_Z 1)))) uncaught (fun page =>
  sync (field_with_default opts "limit"
          (reading_or_throw (fun h => get h (options this) "limit"))) uncaught (fun limit =>
  sync (field_with_default opts "sort" (new_object [])) uncaught (fun sort =>
  sync (field_with_default opts "filter" (new_object [])) uncaught (fun filter =>
  sync (toMongooseFilterExpression stack filter) uncaught (fun datafilter =>
  sync (reading_or_throw (fun h =>
          let? before := js_sub h page (SNum (num_of_Z 1)) in
          let? skip := js_mul h (SNum before) limit in
          Return (SNum skip)))
    uncaught (fun skip =>
  count_total datafilter return_error (fun _ totalCount =>
  calling (Model_find_sort_skip_limit datafilter sort skip limit) return_error (fun node =>
  sync (page_object totalCount page limit node) return_error (fun result h =>
  Settle (Fulfilled result) h)))))))))) h.

(** [a.concat(x)] for one argument: an array is spread, anything else
    is appended. *)
Definition concat_one (h : heap) (acc : cell) (x : sval) : cell :=
  match acc with
  | CArr len ps =>
      match x with
      | SRef l =>
          match cell_at h l with
          | CArr len' ps' =>
              CArr (len + len')
                (fold_left
                   (fun qs i =>
                      match assoc (index_key i) ps' with
                      | Some v => set_prop qs (index_key (len + i)) v
                      | None => qs
                      end) (seq 0 len') ps)
          | CObj _ => CArr (S len) (set_prop ps (index_key len) x)
          end
      | _ => CArr (S len) (set_prop ps (index_key len) x)
      end
  | CObj _ => acc
  end.

(** [a.concat(x1, x2, ...)]: a new array. *)
Definition concat (a : sval) (xs : list sval) : M sval :=
  let! c := reading (fun h => fold_left (concat_one h) (a :: xs) (CArr 0 [])) in
  let! l := alloc c in
  ret (SRef l).

Definition listAggregation (opts aggregation : sval) (h : heap) : task :=
  sync (with_default opts (new_object [])) uncaught (fun opts =>
  sync (with_default aggregation (new_array [])) uncaught (fun aggregation =>
  sync (field_with_default opts "page" (ret (SNum (num_of_Z 1)))) uncaught (fun page =>
  sync (field_with_default opts "limit"
          (reading_or_throw (fun h => get h (options this) "limit"))) uncaught (fun limit =>
  sync (field_with_default opts "sort" (new_object [])) uncaught (fun sort =>
  sync (field_with_default opts "filter" (new_object [])) uncaught (fun filter =>
  sync (toMongooseFilterExpression stack filter) uncaught (fun datafilter =>
  sync (reading_or_throw (fun h =>
          let? before := js_sub h page (SNum (num_of_Z 1)) in
          let? skip := js_mul h (SNum before) limit in
          Return (SNum skip)))
    uncaught (fun skip =>
  sync (new_array []) return_error (fun firstAggregationMatch =>
  sync (new_array []) return_error (fun sortAggregation =>
  count_total datafilter return_error (fun unfiltered totalCount =>
  sync (if unfiltered then ret tt
        else
          let! stage := new_object [("$match", datafilter)] in
          push firstAggregationMatch stage) return_error (fun _ =>
  sync (if truthy sort then
          let! stage := new_object [("$sort", sort)] in
          push sortAggregation stage
        else ret tt) return_error (fun _ =>
  sync (let! skipStage := new_object [("$skip", skip)] in
        let! limitStage := new_object [("$limit", limit)] in
        let! tail := new_array [skipStage; limitStage] in
        concat firstAggregationMatch [aggregation; sortAggregation; tail])
    return_error (fun aggregationConcat =>
  calling (Model_aggregate aggregationConcat) return_error (fun node =>
  sync (page_object totalCount page limit node) return_error (fun result h =>
  Settle (Fulfilled result) h)))))))))))))))) h.

Definition getById (id : sval) (h : heap) : task :=
  calling (Model_findById id) return_null (fun document h =>
  Settle (Fulfilled document) h) h.

Definition add (document : sval) (h : heap) : task :=
  calling (Model_new document) uncaught (fun newDocument =>
  calling (Document_save newDocument) return_error (fun _ h =>
  Settle (Fulfilled newDocument) h)) h.

(** [await this.getById(id)] inside a [try] whose handler returns the
    error. *)
Definition await_getById (id : sval) (k : sval -> heap -> task) (h : heap) : task :=
  awaiting (getById id h)
    (fun r h => match r with
                | Fulfilled document => k document h
                | RejectedWith e => return_error e h
                end).

Definition delete (id : sval) (h : heap) : task :=
  await_getById id (fun document =>
    if truthy document then
      calling (Document_deleteOne document) return_error (fun result h =>
      Settle (Fulfilled result) h)
    else fun h => Settle (Fulfilled SNull) h) h.

(** [Object.assign(target, source)] for any target; a primitive target
    is wrapped, and the characters of a string cannot be written. *)
Definition Object_assign_to (target source : sval) : M sval :=
  match target with
  | SUndefined | SNull => raise (SErr TypeError)
  | SRef l => let! _ := Object_assign l source in ret target
  | SStr s =>
      let! entries := reading (fun h => own_entries h source) in
      if existsb (fun p => match lookup_index (string_chars s) (fst p) with
                           | Some _ => true
                           | None => String.eqb (fst p) "length"
                           end) entries
      then raise (SErr TypeError) else ret target
  | _ => ret target
  end.

Definition update (id documentUpdate : sval) (h : heap) : task :=
  await_getById id (fun document =>
    if truthy document then
      sync (Object_assign_to document documentUpdate) return_error (fun _ =>
      calling (Document_save document) return_error (fun _ h =>
      Settle (Fulfilled document) h))
    else fun h => Settle (Fulfilled SNull) h) h.

(** [id.forEach((stringId) => { idList.push(ObjectId(stringId)) })]. *)
Fixpoint push_each_ObjectId (a : loc) (indices : list nat) (idList : sval)
    (handler : sval -> heap -> task) (k : heap -> task) (h : heap) : task :=
  match indices with
  | [] => k h
  | i :: rest =>
      match assoc (index_key i) (cell_props (cell_at h a)) with
      | Some stringId =>
          calling (ObjectId stringId) handler (fun oid =>
          sync (push idList oid) handler (fun _ =>
          push_each_ObjectId a rest idList handler k)) h
      | None => push_each_ObjectId a rest idList handler k h
      end
  end.

(** The two [if] statements that fill [idList] from [id]. *)
Definition collect_ids (id idList : sval) (handler : sval -> heap -> task)
    (k : heap -> task) (h : heap) : task :=
  let arrays (h : heap) : task :=
    match id with
    | SRef a =>
        match cell_at h a with
        | CArr len _ => push_each_ObjectId a (seq 0 len) idList handler k h
        | CObj _ => k h
        end
    | _ => k h
    end in
  match id with
  | SStr _ =>
      calling (ObjectId id) handler (fun oid =>
      sync (push idList oid) handler (fun _ => arrays)) h
  | _ => arrays h
  end.

Definition deleteManyById (id : sval) (h : heap) : task :=
  sync (new_array []) uncaught (fun idList =>
  collect_ids id idList return_error (
  sync (let! inList := new_object [("$in", idList)] in
        new_object [("_id", inList)]) return_error (fun filter =>
  calling (Model_deleteMany filter) return_error (fun result h =>
  Settle (Fulfilled result) h)))) h.

Definition deleteMany (filter : sval) (h : heap) : task :=
  sync (with_default filter (new_object [])) uncaught (fun filter =>
  calling (Model_deleteMany filter) return_error (fun result h =>
  Settle (Fulfilled result) h)) h.

Definition updateMany (id documentUpdate : sval) (h : heap) : task :=
  sync (new_array []) uncaught (fun idList =>
  collect_ids id idList return_error (
  sync (cleanDocumentUpdate documentUpdate) return_error (fun cleanedDocumentUpdate =>
  sync (let! inList := new_object [("$in", idList)] in
        new_object [("_id", inList)]) return_error (fun filter =>
  sync (new_object [("$set", cleanedDocumentUpdate)]) return_error (fun update =>
  calling (Model_updateMany filter update) return_error (fun result h =>
  Settle (Fulfilled result) h)))))) h.

Definition findOneAndUpdate (id documentUpdate : sval) (h : heap) : task :=
  calling (ObjectId id) return_error (fun oid =>
  sync (new_object [("_id", oid)]) return_error (fun conditions =>
  sync (new_object [("upsert", SBool true)]) return_error (fun opts =>
  calling (Model_findOneAndUpdate conditions documentUpdate opts) return_error
    (fun document h =>
  Settle (Fulfilled document) h)))) h.

End Methods.

(** ** Running a method against a database

    The database and Mongoose are an arbitrary environment: a state
    [W], and for each call a reply, the heap the call leaves (it may
    allocate and write) and the next state. *)
Section Run.

Variable W : Type.
Variable env : W -> call -> heap -> reply * heap * W.

Record run_result : Type := {
  result_settled : settled;
  result_heap : heap;
  result_world : W;
  result_trace : list (call * reply * heap)
}.

(** The run of a task: how it settles, the final heap and state, and
    the calls made, each with its reply and the heap at the call. *)
Fixpoint run (t : task) (w : W) : run_result :=
  match t with
  | Settle r h =>
      {| result_settled := r; result_heap := h; result_world := w; result_trace := [] |}
  | Call c h k =>
      let '(r, h', w') := env w c h in
      let rest := run (k r h') w' in
      {| result_settled := result_settled rest;
         result_heap := result_heap rest;
         result_world := result_world rest;
         result_trace := (c, r, h) :: result_trace rest |}
  end.

End Run.

End Runtime.

(** ** Value trees in the store *)

(** How a payload sits in the store once parsed: one new cell for each
    object and array, children first. *)
Fixpoint store_value (v : value) : M sval :=
  match v with
  | VUndefined => ret SUndefined
  | VNull => ret SNull
  | VBool b => ret (SBool b)
  | VNum n => ret (SNum n)
  | VStr s => ret (SStr s)
  | VArr l =>
      let! elems :=
        (fix store_list (l : list value) : M (list sval) :=
           match l with
           | [] => ret []
           | x :: l' =>
               let! y := store_value x in
               let! ys := store_list l' in
               ret (y :: ys)
           end) l in
      new_array elems
  | VObj ps =>
      let! ps' :=
        (fix store_props (ps : props) : M sprops :=
           match ps with
           | [] => ret []
           | (k, x) :: ps' =>
               let! y := store_value x in
               let! ys := store_props ps' in
               ret ((k, y) :: ys)
           end) ps in
      new_object ps'
  end.

(** The tree a value of the store unfolds to, down to [depth] levels (as
    a deep structural comparison sees it); error objects and what lies
    deeper read as [undefined], and a missing array element as
    [undefined]. *)
Fixpoint read_value (depth : nat) (h : heap) (v : sval) : value :=
  match v with
  | SUndefined => VUndefined
  | SNull => VNull
  | SBool b => VBool b
  | SNum n => VNum n
  | SStr s => VStr s
  | SErr _ => VUndefined
  | SRef l =>
      match depth with
      | O => VUndefined
      | S d =>
          match cell_at h l with
          | CObj ps => VObj (map (fun p => (fst p, read_value d h (snd p))) ps)
          | CArr len ps =>
              VArr (map (fun i => match assoc (index_key i) ps with
                                  | Some x => read_value d h x
                                  | None => VUndefined
                                  end) (seq 0 len))
          end
      end
  end.

End Store.

(** * A runtime to evaluate with

    The theorems below hold for every runtime.  Where a property is
    evaluated on a concrete input, this one is used: it prints and reads
    integers, which is all the inputs evaluated need. *)

Module Sample.

(** The decimal text of an integer-valued number, [NaN] and the
    infinities; the integer part, for any other number. *)
Definition Number_toString (n : number) : string :=
  match n with
  | S754_zero _ => "0"
  | S754_nan => "NaN"
  | S754_infinity false => "Infinity"
  | S754_infinity true => "-Infinity"
  | S754_finite s m e =>
      let z := (if (0 <=? e) then Z.pos m * 2 ^ e else Z.pos m / 2 ^ (- e))%Z in
      String.append (if s then "-" else "")
        (NilZero.string_of_uint (N.to_uint (Z.to_N z)))
  end.

(** The number an all-digits string writes; [NaN] for any other text. *)
Definition StringToNumber (s : string) : number :=
  match s with
  | EmptyString => pos_zero
  | _ =>
      match NilEmpty.uint_of_string s with
      | Some d => num_of_Z (Z.of_N (N.of_uint d))
      | None => NaN
      end
  end.

Definition Error_toString (e : exn) : string :=
  match e with
  | TypeError => "TypeError"
  | RangeError => "RangeError"
  end.

(** A database that cannot be reached: every call fails. *)
Definition database_down (w : unit) (c : Store.call) (h : list Store.cell)
  : Store.reply * list Store.cell * unit :=
  (Store.Rejected (Store.SStr "connection lost"), h, w).

(** A database without documents: a count is [0], a search gives a new
    empty array, a lookup or an update [null]; an id and a new document
    are taken as they are. *)
Definition database_idle (w : unit) (c : Store.call) (h : list Store.cell)
  : Store.reply * list Store.cell * unit :=
  match c with
  | Store.Model_estimatedDocumentCount | Store.Model_countDocuments _ =>
      (Store.Resolved (Store.SNum (num_of_Z 0)), h, w)
  | Store.Model_find _ | Store.Model_find_sort _ _ _
  | Store.Model_find_sort_skip_limit _ _ _ _ | Store.Model_aggregate _ =>
      (Store.Resolved (Store.SRef (length h)), h ++ [Store.array_cell []], w)
  | Store.ObjectId id => (Store.Resolved id, h, w)
  | Store.Model_new document => (Store.Resolved document, h, w)
  | _ => (Store.Resolved Store.SNull, h, w)
  end.

End Sample.

(** * Properties of the compiler over value trees *)

Section CompilerFacts.

Import Tree.

Variable Number_toString : number -> string.
Variable StringToNumber : string -> number.

Local Abbreviation getTypeof := (getTypeof Number_toString StringToNumber).
Local Abbreviation convertLogicalOperator := (convertLogicalOperator Number_toString).
Local Abbreviation convertSearchOperator := (convertSearchOperator Number_toString).
Local Abbreviation transferField := (transferField Number_toString StringToNumber).
Local Abbreviation toMongooseFilterExpression_body :=
  (toMongooseFilterExpression_body Number_toString StringToNumber).
Local Abbreviation toMongooseFilterExpression_at :=
  (toMongooseFilterExpression_at Number_toString StringToNumber).
Local Abbreviation toMongooseFilterExpression :=
  (toMongooseFilterExpression Number_toString StringToNumber).

(** ** The recursion follows the nesting of the input *)

Lemma height_elem (l : list value) (x : value) :
  In x l -> height x < height (VArr l).
Proof.
  intros Hin. simpl. apply Nat.lt_succ_r.
  induction l as [|y l IH]; simpl in *; [contradiction|].
  destruct Hin as [->|Hin]; [lia|]. specialize (IH Hin). lia.
Qed.

Lemma height_prop (ps : props) (k : string) (x : value) :
  assoc k ps = Some x -> height x < height (VObj ps).
Proof.
  intros Hk. simpl. apply Nat.lt_succ_r.
  induction ps as [|[k' v] ps IH]; simpl in *; [discriminate|].
  destruct (String.eqb k' k).
  - injection Hk as ->. lia.
  - specialize (IH Hk). lia.
Qed.

Lemma lookup_index_In {A : Type} (l : list A) (k : string) (x : A) :
  lookup_index l k = Some x -> In x l.
Proof.
  unfold lookup_index. destruct (parse_index k) as [i|]; [|discriminate].
  destruct (i <? N.of_nat (length l))%N; [|discriminate].
  apply nth_error_In.
Qed.

Lemma get_height (v w : value) (k : string) :
  get v k = Ok w -> height w <= pred (height v).
Proof.
  destruct v as [| | | |s|l|ps]; simpl; try discriminate;
    try (intros [= <-]; simpl; lia).
  - destruct (k =? "length")%string; intros [= <-]; [simpl; lia|].
    destruct (lookup_index (map VStr (string_chars s)) k) as [x|] eqn:E; simpl; [|lia].
    apply lookup_index_In, in_map_iff in E. destruct E as (c & <- & _). simpl. lia.
  - destruct (k =? "length")%string; intros [= <-]; [simpl; lia|].
    destruct (lookup_index l k) as [x|] eqn:E; [|simpl; lia].
    apply lookup_index_In, height_elem in E. simpl in *. lia.
  - intros [= <-]. destruct (assoc k ps) as [x|] eqn:E; [|simpl; lia].
    apply height_prop in E. simpl in *. lia.
Qed.

Lemma forEach_ext {A S : Type} (l : list A) (f g : A -> S -> result S) (s : S) :
  (forall x s', In x l -> f x s' = g x s') -> forEach l f s = forEach l g s.
Proof.
  revert s. induction l as [|x l IH]; intros s H; simpl; [reflexivity|].
  rewrite (H x s (or_introl eq_refl)). destruct (g x s); simpl; [|reflexivity].
  apply IH. intros y s' Hy. apply H. now right.
Qed.

Lemma convertLogicalOperator_ext (f g : value -> result value)
    (fieldType : string) (fieldValue fieldName : value) :
  (forall x, height x < height fieldValue -> f x = g x) ->
  convertLogicalOperator f fieldType fieldValue fieldName
  = convertLogicalOperator g fieldType fieldValue fieldName.
Proof.
  intros H. unfold convertLogicalOperator.
  destruct (negb (fieldType =? "array")%string); [reflexivity|].
  destruct (ToString Number_toString fieldName) as [name|]; [|reflexivity].
  cbn [bind].
  destruct fieldValue as [| | | | |l|]; try reflexivity.
  erewrite forEach_ext; [reflexivity|].
  intros x s' Hx. cbv beta. now rewrite (H x (height_elem _ _ Hx)).
Qed.

(** Two candidate compilers that agree below the height of the operand
    give the same operator node. *)
Lemma convertSearchOperator_ext (f g : value -> result value)
    (fieldName : value) (fieldType : string) (fieldValue : value) :
  (forall x, height x < height fieldValue -> f x = g x) ->
  convertSearchOperator f fieldName fieldType fieldValue
  = convertSearchOperator g fieldName fieldType fieldValue.
Proof.
  intros H. unfold convertSearchOperator.
  repeat match goal with
         | |- (if ?b then _ else _) = (if ?b then _ else _) =>
             destruct b; [reflexivity|]
         end.
  destruct (_ || _); [|reflexivity].
  now apply convertLogicalOperator_ext.
Qed.

Lemma transferField_ext (f g : value -> result value)
    (filter : value) (field : string) (acc : props) :
  (forall x, height x < height filter -> f x = g x) ->
  transferField f filter field acc = transferField g filter field acc.
Proof.
  intros H. unfold transferField.
  destruct (get filter field) as [fv|] eqn:Efv; simpl; [|reflexivity].
  apply get_height in Efv.
  destruct (Object_keys fv) as [keys|]; simpl; [|reflexivity].
  destruct (ToString Number_toString (first_key keys)) as [key|]; simpl; [|reflexivity].
  destruct (get fv key) as [fieldValue|] eqn:Eval; simpl; [|reflexivity].
  apply get_height in Eval.
  destruct (getTypeof fieldValue VUndefined) as [fieldType|]; simpl; [|reflexivity].
  destruct (kindOf fv =? "object")%string.
  - erewrite convertSearchOperator_ext; [reflexivity|].
    intros x Hx. apply H. lia.
  - destruct (kindOf fv =? "array")%string; [|reflexivity].
    erewrite convertSearchOperator_ext; [reflexivity|].
    intros x Hx. apply H. lia.
Qed.

Lemma toMongooseFilterExpression_body_ext (f g : value -> result value) (filter : value) :
  (forall x, height x < height filter -> f x = g x) ->
  toMongooseFilterExpression_body f filter = toMongooseFilterExpression_body g filter.
Proof.
  intros H. unfold toMongooseFilterExpression_body.
  destruct filter; [reflexivity| ..].
  all: match goal with |- context [Object_keys ?v] => destruct (Object_keys v) end;
    cbn [bind]; [|reflexivity].
  all: erewrite forEach_ext; [reflexivity|].
  all: intros x s' _; now apply transferField_ext.
Qed.

(** A stack deeper than the value changes nothing. *)
Lemma toMongooseFilterExpression_at_enough (n m : nat) (filter : value) :
  height filter < n -> height filter < m ->
  toMongooseFilterExpression_at n filter = toMongooseFilterExpression_at m filter.
Proof.
  revert m filter. induction n as [|n IH]; intros m filter Hn Hm; [lia|].
  destruct m as [|m]; [lia|]. simpl.
  apply toMongooseFilterExpression_body_ext.
  intros x Hx. apply IH; lia.
Qed.

(** The compiler satisfies the recursive equation of the source. *)
Lemma toMongooseFilterExpression_unfold (filter : value) :
  toMongooseFilterExpression filter
  = toMongooseFilterExpression_body toMongooseFilterExpression filter.
Proof.
  unfold toMongooseFilterExpression at 1. simpl.
  apply toMongooseFilterExpression_body_ext.
  intros x Hx. apply toMongooseFilterExpression_at_enough; lia.
Qed.

(** ** The driver on one field *)

Lemma set_prop_nil {A : Type} (k : string) (v : A) :
  k <> "__proto__" -> set_prop [] k v = [(k, v)].
Proof.
  intros Hk. unfold set_prop. simpl. apply String.eqb_neq in Hk. rewrite Hk.
  now destruct (array_index k).
Qed.

Lemma toMongooseFilterExpression_one_field (field : string) (x : value) :
  toMongooseFilterExpression (VObj [(field, x)])
  = let* acc := transferField toMongooseFilterExpression (VObj [(field, x)]) field [] in
    Ok (VObj acc).
Proof.
  rewrite toMongooseFilterExpression_unfold at 1.
  unfold toMongooseFilterExpression_body. cbn [Object_keys map fst bind forEach].
  now destruct (transferField _ _ _ _).
Qed.

(** ** The type classifier *)

(** With the value as its only argument, [getTypeof] is [kindOf], except
    on the string ["number"]. *)
Lemma getTypeof_one_argument (v : value) :
  getTypeof v VUndefined = Ok (if strict_eq_string v "number" then "float" else kindOf v).
Proof.
  unfold getTypeof. now destruct (strict_eq_string v "number").
Qed.

(** An object with a single property is a plain object for [kindOf]. *)
Lemma single_property_is_object (k : string) (v : value) :
  kindOf (VObj [(k, v)]) = "object".
Proof.
  unfold kindOf, error_shaped, regexp_shaped. cbn [assoc].
  destruct (String.eqb_spec k "message") as [->|Hm].
  - cbn. now destruct v.
  - destruct (String.eqb_spec k "flags") as [->|Hf]; [|reflexivity].
    cbn. now destruct v.
Qed.

(** A field holding an operator clause: the first key is the operator,
    its value the operand, and the kind handed to the operator table is
    [getTypeof] of the operand alone. *)
Lemma transferField_clause (self : value -> result value)
    (field op : string) (v : value) (more rest acc : props) :
  kindOf (VObj ((op, v) :: more)) = "object" ->
  transferField self (VObj ((field, VObj ((op, v) :: more)) :: rest)) field acc
  = let* node :=
      convertSearchOperator self (VStr op)
        (if strict_eq_string v "number" then "float" else kindOf v) v in
    Ok (set_prop acc field node).
Proof.
  intros Hkind. unfold transferField.
  cbn [get assoc]. rewrite String.eqb_refl. cbn [or_undefined bind].
  rewrite Hkind.
  cbn [Object_keys map fst bind first_key ToString get assoc].
  rewrite String.eqb_refl. cbn [or_undefined bind].
  rewrite getTypeof_one_argument. reflexivity.
Qed.

Lemma compile_clause (field op : string) (v : value) :
  field <> "__proto__" ->
  toMongooseFilterExpression (VObj [(field, VObj [(op, v)])])
  = let* node :=
      convertSearchOperator toMongooseFilterExpression (VStr op)
        (if strict_eq_string v "number" then "float" else kindOf v) v in
    Ok (VObj [(field, node)]).
Proof.
  intros Hfield.
  rewrite toMongooseFilterExpression_one_field.
  rewrite transferField_clause by apply single_property_is_object.
  destruct (convertSearchOperator _ _ _ _); cbn [bind]; [|reflexivity].
  now rewrite set_prop_nil.
Qed.

(** C1 (the code departs from the claim).  The claim: a numeric operand is
    classified [int] when it is whole and [float] when it is not, any other
    operand by its intrinsic kind, and that kind is what the operator
    table receives.  [getTypeof] does refine a number when it is given the
    kind and the value, as its documentation says; the driver gives it the
    value alone, so the operator table receives ["number"] for every
    number, and ["float"] for the string ["number"]. *)
Theorem classifier_receives_value_only :
  (forall n : number,
      getTypeof (VStr "number") (VNum n)
      = Ok (if num_strict_eq (num_rem_one n) pos_zero then "int" else "float"))
  /\ (forall n : number, getTypeof (VNum n) VUndefined = Ok "number")
  /\ getTypeof (VNum (num_of_Z 5)) VUndefined = Ok "number"
  /\ getTypeof (VStr "number") VUndefined = Ok "float"
  /\ (forall (self : value -> result value) (field op : string) (v : value)
             (more rest acc : props),
         kindOf (VObj ((op, v) :: more)) = "object" ->
         transferField self (VObj ((field, VObj ((op, v) :: more)) :: rest)) field acc
         = let* node :=
             convertSearchOperator self (VStr op)
               (if strict_eq_string v "number" then "float" else kindOf v) v in
           Ok (set_prop acc field node)).
Proof.
  split; [|split; [|split; [|split]]].
  - intros n. unfold getTypeof. cbn.
    now destruct (num_strict_eq (num_rem_one n) pos_zero).
  - intros n. apply getTypeof_one_argument.
  - apply getTypeof_one_argument.
  - apply getTypeof_one_argument.
  - intros. now apply transferField_clause.
Qed.

(** ** [contains] *)

Lemma contains_string (field s : string) :
  field <> "__proto__" -> s <> "number" ->
  toMongooseFilterExpression (VObj [(field, VObj [("contains", VStr s)])])
  = Ok (VObj [(field, VObj [("$regex", VStr s); ("$options", VStr "i")])]).
Proof.
  intros Hfield Hs. rewrite compile_clause by exact Hfield. cbn.
  apply String.eqb_neq in Hs. now rewrite Hs.
Qed.

Lemma contains_not_string (field : string) (v : value) :
  field <> "__proto__" -> kindOf v <> "string" ->
  toMongooseFilterExpression (VObj [(field, VObj [("contains", v)])])
  = Ok (VObj [(field, v)]).
Proof.
  intros Hfield Hv. rewrite compile_clause by exact Hfield.
  assert (Hs : strict_eq_string v "number" = false)
    by (destruct v; try reflexivity; now elim Hv).
  rewrite Hs. cbn. unfold convertContains.
  destruct (String.eqb_spec (kindOf v) "string") as [E|_]; [now elim Hv|reflexivity].
Qed.

(** C6 (the code departs from the claim).  The claim: for every string [s],
    [{field: {contains: s}}] compiles to the case-insensitive regex node.
    On the string ["number"] the classifier answers ["float"], and
    [contains] hands the string back unchanged. *)
Theorem contains_number_not_compiled (field : string) :
  field <> "__proto__" ->
  toMongooseFilterExpression (VObj [(field, VObj [("contains", VStr "number")])])
  = Ok (VObj [(field, VStr "number")]).
Proof.
  intros Hfield. now rewrite compile_clause.
Qed.

(** ** Bare literals *)

(** The driver on a field that holds a boolean, a number or a string. *)
Lemma transferField_scalar (self : value -> result value)
    (ps acc : props) (field : string) (v : value) :
  assoc field ps = Some v ->
  kindOf v = "boolean" \/ kindOf v = "number" \/ kindOf v = "string" ->
  transferField self (VObj ps) field acc = Ok (set_prop acc field v).
Proof.
  intros Hps Hv. unfold transferField. cbn [get]. rewrite Hps.
  cbn [or_undefined bind].
  destruct v as [| |b|n|s|l|ps']; cbn in Hv;
    try (destruct Hv as [Hv|[Hv|Hv]]; discriminate Hv).
  - reflexivity.
  - reflexivity.
  - cbn [kindOf Object_keys bind].
    destruct (map index_key (seq 0 (String.length s))) as [|k ks];
      cbn [first_key ToString bind get].
    + destruct ("undefined" =? "length")%string; cbn [bind];
        rewrite getTypeof_one_argument; reflexivity.
    + destruct (k =? "length")%string; cbn [bind];
        rewrite getTypeof_one_argument; reflexivity.
  - destruct (error_shaped ps'); [destruct Hv as [Hv|[Hv|Hv]]; discriminate Hv|].
    destruct (regexp_shaped ps'); destruct Hv as [Hv|[Hv|Hv]]; discriminate Hv.
Qed.

Lemma scalar_literal_kept (field : string) (v : value) :
  field <> "__proto__" ->
  kindOf v = "boolean" \/ kindOf v = "number" \/ kindOf v = "string" ->
  toMongooseFilterExpression (VObj [(field, v)]) = Ok (VObj [(field, v)]).
Proof.
  intros Hfield Hv. rewrite toMongooseFilterExpression_one_field.
  rewrite (transferField_scalar _ [(field, v)] [] field v).
  - cbn [bind]. now rewrite set_prop_nil.
  - cbn. now rewrite String.eqb_refl.
  - exact Hv.
Qed.

(** C2 (the code departs from the claim).  The claim: a bare literal,
    array literals included, is assigned unchanged under its field name.
    The driver sends every array through the operator table and merges the
    result into the output: for [{tags: [1, 2]}] the elements land under
    the keys ["0"] and ["1"] and no [tags] key exists.  A [null] literal
    makes the compile throw. *)
Theorem array_literal_spread_over_output :
  toMongooseFilterExpression
    (VObj [("tags", VArr [VNum (num_of_Z 1); VNum (num_of_Z 2)])])
  = Ok (VObj [("0", VNum (num_of_Z 1)); ("1", VNum (num_of_Z 2))])
  /\ toMongooseFilterExpression (VObj [("tags", VNull)]) = Throw TypeError.
Proof.
  split; rewrite toMongooseFilterExpression_one_field; reflexivity.
Qed.

(** ** [exists] *)

Lemma digit_value_below_ten (c : ascii) (d : Z) :
  is_decimal_digit c = false -> digit_value c = Some d -> (d <? 10)%Z = false.
Proof.
  unfold is_decimal_digit, digit_value. intros Hc.
  rewrite Hc.
  destruct ((97 <=? code c) && (code c <=? 122))%Z eqn:E1.
  - intros [= <-]. apply Z.ltb_ge. apply andb_true_iff in E1 as [E1 _].
    apply Z.leb_le in E1. lia.
  - destruct ((65 <=? code c) && (code c <=? 90))%Z eqn:E2; [|discriminate].
    intros [= <-]. apply Z.ltb_ge. apply andb_true_iff in E2 as [E2 _].
    apply Z.leb_le in E2. lia.
Qed.

Lemma parse_digits_no_digit (s : string) :
  has_digit s = false -> parse_digits 10 s None = None.
Proof.
  destruct s as [|c s]; simpl; [reflexivity|].
  intros H. apply orb_false_iff in H as [Hc _].
  destruct (digit_value c) as [d|] eqn:E; [|reflexivity].
  now rewrite (digit_value_below_ten c d Hc E).
Qed.

Lemma trim_start_no_digit (s : string) :
  has_digit s = false -> has_digit (trim_start s) = false.
Proof.
  induction s as [|c s IH]; simpl; [reflexivity|].
  intros H. destruct (is_white_space c); [|exact H].
  apply IH. now apply orb_false_iff in H as [_ H].
Qed.

Lemma parseInt_digits_no_digit (neg : bool) (s : string) :
  has_digit s = false -> parseInt_digits neg s 0 = NaN.
Proof.
  intros H. unfold parseInt_digits. cbn [Z.eqb orb].
  destruct s as [|c [|x r]]; try (now rewrite parse_digits_no_digit).
  destruct (Ascii.eqb c "0") eqn:Ec.
  - apply Ascii.eqb_eq in Ec. subst c. discriminate H.
  - cbn [andb]. now rewrite parse_digits_no_digit.
Qed.

(** A text without a decimal digit is not a number for [parseInt]. *)
Lemma parseInt_string_no_digit (s : string) :
  has_digit s = false -> parseInt_string s 0 = NaN.
Proof.
  intros H. apply trim_start_no_digit in H. unfold parseInt_string.
  destruct (trim_start s) as [|c r]; [reflexivity|].
  pose proof H as Hcr. simpl in H. apply orb_false_iff in H as [Hc Hr].
  destruct (Ascii.eqb c "-"); [now apply parseInt_digits_no_digit|].
  destruct (Ascii.eqb c "+"); now apply parseInt_digits_no_digit.
Qed.

(** An operand that is not numeric: [undefined], [null], a boolean, an
    object that converts to a string, or a string without a decimal
    digit. *)
Definition non_numeric (v : value) : bool :=
  match v with
  | VUndefined | VNull | VBool _ => true
  | VObj ps => match assoc "toString" ps with
               | Some _ => false
               | None => true
               end
  | VStr s => negb (has_digit s)
  | VNum _ | VArr _ => false
  end.

Lemma parseInt_non_numeric (v : value) :
  non_numeric v = true -> parseInt Number_toString v 0 = Ok NaN.
Proof.
  unfold parseInt. destruct v as [| |[]| |s| |ps]; cbn; try discriminate;
    try reflexivity.
  - intros H. f_equal. apply parseInt_string_no_digit. now apply negb_true_iff.
  - destruct (assoc "toString" ps); [discriminate|reflexivity].
Qed.

(** C4 (amended).  For a field other than [__proto__]: [{field: {exists:
    v}}] compiles to [{field: {$exists: 1}}] for the string ["1"] and to
    [{field: {$exists: 0}}] for ["0"]; whenever [parseInt(v, 0)] gives a
    number the compile returns, with that number under [$exists]; for an
    operand that is not numeric that number is [NaN], not a default of
    [0]; and when [parseInt(v, 0)] throws (the operand is an object with an
    own property [toString], which has no string form) the compile throws
    the same error. *)
Theorem exists_coerced_by_parseInt (field : string) :
  field <> "__proto__" ->
  toMongooseFilterExpression (VObj [(field, VObj [("exists", VStr "1")])])
  = Ok (VObj [(field, VObj [("$exists", VNum (num_of_Z 1))])])
  /\ toMongooseFilterExpression (VObj [(field, VObj [("exists", VStr "0")])])
     = Ok (VObj [(field, VObj [("$exists", VNum (num_of_Z 0))])])
  /\ (forall (v : value) (n : number),
         parseInt Number_toString v 0 = Ok n ->
         toMongooseFilterExpression (VObj [(field, VObj [("exists", v)])])
         = Ok (VObj [(field, VObj [("$exists", VNum n)])]))
  /\ (forall v : value,
         non_numeric v = true ->
         toMongooseFilterExpression (VObj [(field, VObj [("exists", v)])])
         = Ok (VObj [(field, VObj [("$exists", VNum NaN)])]))
  /\ (forall (v : value) (e : exn),
         parseInt Number_toString v 0 = Throw e ->
         toMongooseFilterExpression (VObj [(field, VObj [("exists", v)])]) = Throw e)
  /\ (forall (ps : props) (x : value),
         assoc "toString" ps = Some x ->
         toMongooseFilterExpression (VObj [(field, VObj [("exists", VObj ps)])])
         = Throw TypeError).
Proof.
  intros Hfield.
  assert (Hall : forall v : value,
    toMongooseFilterExpression (VObj [(field, VObj [("exists", v)])])
    = let* n := parseInt Number_toString v 0 in
      Ok (VObj [(field, VObj [("$exists", VNum n)])])).
  { intros v. rewrite compile_clause by exact Hfield.
    unfold convertSearchOperator. cbn [strict_eq_string String.eqb Ascii.eqb Bool.eqb].
    now destruct (parseInt Number_toString v 0). }
  split; [now rewrite Hall|]. split; [now rewrite Hall|]. split; [|split; [|split]].
  - intros v n Hn. now rewrite Hall, Hn.
  - intros v Hv. now rewrite Hall, parseInt_non_numeric.
  - intros v e He. now rewrite Hall, He.
  - intros ps x Hx. rewrite Hall. unfold parseInt. cbn [ToString]. now rewrite Hx.
Qed.

(** ** [and] / [or] *)

Lemma forEach_push {A B : Type} (f : A -> result B) (l : list A) (acc : list B) :
  forEach l (fun x acc => let* c := f x in Ok (acc ++ [c])) acc
  = let* cs := mapM f l in Ok (acc ++ cs).
Proof.
  revert acc. induction l as [|x l IH]; intros acc; simpl.
  - now rewrite app_nil_r.
  - destruct (f x) as [c|e]; simpl; [|reflexivity].
    rewrite IH. destruct (mapM f l); simpl; [|reflexivity].
    now rewrite <- app_assoc.
Qed.

Lemma convertLogicalOperator_array (self : value -> result value)
    (name : string) (l : list value) :
  convertLogicalOperator self "array" (VArr l) (VStr name)
  = let* cs := mapM self l in Ok (VObj [(String.append "$" name, VArr cs)]).
Proof.
  unfold convertLogicalOperator. cbn [String.eqb Ascii.eqb Bool.eqb negb ToString bind].
  rewrite forEach_push. now destruct (mapM self l).
Qed.

(** The driver on a field [and] / [or] that holds an array. *)
Lemma transferField_logical (self : value -> result value)
    (name : string) (l : list value) (ps acc : props) :
  name = "and" \/ name = "or" ->
  assoc name ps = Some (VArr l) ->
  transferField self (VObj ps) name acc
  = let* cs := mapM self l in
    Ok (set_prop acc (String.append "$" name) (VArr cs)).
Proof.
  intros Hname Hps. unfold transferField. cbn [get]. rewrite Hps.
  cbn [or_undefined bind kindOf Object_keys].
  assert (Hop : convertSearchOperator self (VStr name) "array" (VArr l)
                = convertLogicalOperator self "array" (VArr l) (VStr name))
    by (destruct Hname as [-> | ->]; reflexivity).
  assert (Hkey : exists key, ToString Number_toString
                               (first_key (map index_key (seq 0 (length l)))) = Ok key).
  { destruct (map index_key (seq 0 (length l))); cbn; eauto. }
  destruct Hkey as [key ->]. cbn [bind].
  assert (Hget : exists w, get (VArr l) key = Ok w)
    by (cbn; destruct (_ =? "length")%string; eauto).
  destruct Hget as [w ->]. cbn [bind].
  rewrite getTypeof_one_argument. cbn [bind String.eqb Ascii.eqb Bool.eqb].
  rewrite Hop, convertLogicalOperator_array.
  destruct (mapM self l); cbn [bind]; [|reflexivity].
  destruct Hname as [-> | ->]; reflexivity.
Qed.


(** When an element does not compile, neither does the filter. *)
Lemma logical_operator_throws (name : string) (l : list value) (e : exn) :
  name = "and" \/ name = "or" ->
  mapM toMongooseFilterExpression l = Throw e ->
  toMongooseFilterExpression (VObj [(name, VArr l)]) = Throw e.
Proof.
  intros Hname Hcs.
  rewrite toMongooseFilterExpression_one_field.
  rewrite (transferField_logical _ name l [(name, VArr l)] [] Hname).
  - now rewrite Hcs.
  - simpl. now rewrite String.eqb_refl.
Qed.

End CompilerFacts.

(** * Properties of the code over the store *)

Section StoreFrame.

Import Store.

(** ** What a computation leaves of the heap *)

Definition is_array (c : cell) : bool :=
  match c with
  | CArr _ _ => true
  | CObj _ => false
  end.

(** From [h] to [h']: the heap has only grown, the cells below [n] are
    the same, and no cell of [h] has turned from object to array or
    back. *)
Definition evolves (n : nat) (h h' : heap) : Prop :=
  length h <= length h'
  /\ (forall l : loc, l < n -> h' !! l = h !! l)
  /\ (forall l : loc, l < length h -> is_array (cell_at h' l) = is_array (cell_at h l)).

(** A computation that writes no cell below [n]. *)
Definition framed_above {A : Type} (n : nat) (m : M A) : Prop :=
  forall h : heap, n <= length h -> evolves n h (snd (m h)).

(** A computation that writes no cell that exists when it starts. *)
Definition framed {A : Type} (m : M A) : Prop :=
  forall h : heap, evolves (length h) h (snd (m h)).

Lemma evolves_refl (n : nat) (h : heap) : evolves n h h.
Proof. repeat split; auto. Qed.

Lemma evolves_trans (n : nat) (h1 h2 h3 : heap) :
  evolves n h1 h2 -> evolves n h2 h3 -> evolves n h1 h3.
Proof.
  intros (L1 & U1 & K1) (L2 & U2 & K2). repeat split.
  - lia.
  - intros l Hl. rewrite U2, U1; auto.
  - intros l Hl. rewrite K2, K1; auto. lia.
Qed.

Lemma evolves_weaken (n m : nat) (h h' : heap) :
  m <= n -> evolves n h h' -> evolves m h h'.
Proof.
  intros Hm (L & U & K). repeat split; auto. intros l Hl. apply U. lia.
Qed.

Lemma cell_at_app (h : heap) (k : heap) (l : loc) :
  l < length h -> cell_at (h ++ k) l = cell_at h l.
Proof. intros Hl. unfold cell_at. now rewrite lookup_app_l. Qed.

Lemma cell_at_new (h : heap) (c : cell) : cell_at (h ++ [c]) (length h) = c.
Proof.
  unfold cell_at. rewrite lookup_app_r by lia. now rewrite Nat.sub_diag.
Qed.

Lemma cell_at_insert_eq (h : heap) (l : loc) (c : cell) :
  l < length h -> cell_at (<[l:=c]> h) l = c.
Proof. intros Hl. unfold cell_at. now rewrite list_lookup_insert_eq. Qed.

Lemma cell_at_insert_ne (h : heap) (l l' : loc) (c : cell) :
  l <> l' -> cell_at (<[l:=c]> h) l' = cell_at h l'.
Proof. intros Hl. unfold cell_at. now rewrite list_lookup_insert_ne. Qed.

Lemma cell_at_unchanged (n : nat) (h h' : heap) (l : loc) :
  evolves n h h' -> l < n -> cell_at h' l = cell_at h l.
Proof. intros (_ & U & _) Hl. unfold cell_at. now rewrite U. Qed.

Lemma evolves_alloc (n : nat) (h : heap) (c : cell) :
  n <= length h -> evolves n h (h ++ [c]).
Proof.
  intros Hn. repeat split.
  - rewrite length_app. lia.
  - intros l Hl. apply lookup_app_l. lia.
  - intros l Hl. now rewrite cell_at_app.
Qed.

Lemma evolves_write (n : nat) (h : heap) (l : loc) (c : cell) :
  n <= l -> is_array c = is_array (cell_at h l) -> evolves n h (<[l:=c]> h).
Proof.
  intros Hn Hc. repeat split.
  - now rewrite length_insert.
  - intros l' Hl'. apply list_lookup_insert_ne. lia.
  - intros l' Hl'. destruct (Nat.eq_dec l l') as [<-|Hne].
    + now rewrite cell_at_insert_eq.
    + now rewrite cell_at_insert_ne.
Qed.

Lemma framed_is_framed_above {A : Type} (n : nat) (m : M A) :
  framed m -> framed_above n m.
Proof. intros H h Hn. eapply evolves_weaken; [exact Hn|apply H]. Qed.

Lemma framed_above_ret {A : Type} (n : nat) (a : A) : framed_above n (ret a).
Proof. intros h _. apply evolves_refl. Qed.

Lemma framed_above_raise {A : Type} (n : nat) (e : sval) : framed_above n (@raise A e).
Proof. intros h _. apply evolves_refl. Qed.

Lemma framed_above_reading {A : Type} (n : nat) (f : heap -> A) :
  framed_above n (reading f).
Proof. intros h _. apply evolves_refl. Qed.

Lemma framed_above_reading_or_throw {A : Type} (n : nat) (f : heap -> outcome A) :
  framed_above n (reading_or_throw f).
Proof. intros h _. apply evolves_refl. Qed.

Lemma framed_above_alloc (n : nat) (c : cell) : framed_above n (alloc c).
Proof. intros h Hn. now apply evolves_alloc. Qed.

Lemma framed_above_new_object (n : nat) (ps : sprops) : framed_above n (new_object ps).
Proof. intros h Hn. now apply evolves_alloc. Qed.

Lemma framed_above_new_array (n : nat) (elems : list sval) :
  framed_above n (new_array elems).
Proof. intros h Hn. now apply evolves_alloc. Qed.

Lemma framed_above_bind {A B : Type} (n : nat) (m : M A) (k : A -> M B) :
  framed_above n m -> (forall a, framed_above n (k a)) -> framed_above n (bind m k).
Proof.
  intros Hm Hk h Hn. unfold bind. specialize (Hm h Hn).
  destruct (m h) as [[a|e] h1]; simpl in *; [|exact Hm].
  eapply evolves_trans; [exact Hm|]. apply Hk. destruct Hm as (L & _). lia.
Qed.

Lemma framed_above_forEach {A S : Type} (n : nat) (l : list A) (f : A -> S -> M S) (s : S) :
  (forall x s', framed_above n (f x s')) -> framed_above n (forEach l f s).
Proof.
  intros Hf. revert s. induction l as [|x l IH]; intros s; simpl.
  - apply framed_above_ret.
  - apply framed_above_bind; auto.
Qed.

Lemma is_array_cell_set (c : cell) (k : string) (v : sval) :
  is_array (cell_set c k v) = is_array c.
Proof. destruct c; simpl; [reflexivity|]. now destruct (array_index k). Qed.

Lemma framed_above_set (n : nat) (l : loc) (k : string) (v : sval) :
  n <= l -> framed_above n (set l k v).
Proof.
  intros Hl h Hn. unfold set, write. simpl.
  apply evolves_write; [exact Hl|apply is_array_cell_set].
Qed.

Lemma framed_above_delete_property (n : nat) (l : loc) (k : string) :
  n <= l -> framed_above n (delete_property l k).
Proof.
  intros Hl h Hn. unfold delete_property, write.
  destruct (cell_at h l) eqn:E; simpl; apply evolves_write; auto; now rewrite E.
Qed.

Lemma framed_above_push (n : nat) (l : loc) (v : sval) :
  n <= l -> framed_above n (push (SRef l) v).
Proof.
  intros Hl h Hn. unfold push, write.
  destruct (cell_at h l) eqn:E; simpl; [apply evolves_refl|].
  apply evolves_write; auto. now rewrite E.
Qed.

Lemma framed_above_Object_assign (n : nat) (target : loc) (source : sval) :
  n <= target -> framed_above n (Object_assign target source).
Proof.
  intros Hl. unfold Object_assign.
  apply framed_above_bind; [apply framed_above_reading|]. intros entries.
  apply framed_above_bind; [|intros; apply framed_above_ret].
  apply framed_above_forEach. intros p u. now apply framed_above_set.
Qed.

Lemma framed_above_all {A : Type} (m : M A) :
  (forall n, framed_above n m) -> framed m.
Proof. intros H h. now apply H. Qed.

(** What has only grown and kept its cells is an extension. *)
Lemma evolves_extension (h h' : heap) :
  evolves (length h) h h' -> exists fresh : heap, h' = h ++ fresh.
Proof.
  intros (L & U & _). exists (drop (length h) h').
  rewrite <- (take_drop (length h) h') at 1. f_equal.
  apply list_eq. intros i. destruct (Nat.lt_ge_cases i (length h)) as [Hi|Hi].
  - rewrite lookup_take_lt by exact Hi. now apply U.
  - rewrite lookup_take_ge by exact Hi. symmetry. now apply lookup_ge_None_2.
Qed.

(** A computation that can only return [a]. *)
Definition returns_only {A : Type} (m : M A) (a : A) : Prop :=
  forall (h : heap) (a' : A), fst (m h) = Return a' -> a' = a.

Lemma returns_only_ret {A : Type} (a : A) : returns_only (ret a) a.
Proof. intros h a' [= <-]. reflexivity. Qed.

Lemma returns_only_bind {A B : Type} (m : M A) (k : A -> M B) (b : B) :
  (forall a, returns_only (k a) b) -> returns_only (bind m k) b.
Proof.
  intros Hk h b'. unfold bind. destruct (m h) as [[a|e] h1]; simpl; [|discriminate].
  apply Hk.
Qed.

Lemma returns_only_forEach {A S : Type} (l : list A) (f : A -> S -> M S) (s : S) :
  (forall x s', returns_only (f x s') s') -> returns_only (forEach l f s) s.
Proof.
  intros Hf. revert s. induction l as [|x l IH]; intros s; simpl.
  - apply returns_only_ret.
  - intros h s'. unfold bind. specialize (Hf x s h).
    destruct (f x s h) as [[s1|e] h1]; simpl in *; [|discriminate].
    rewrite (Hf s1 eq_refl). apply IH.
Qed.

(** A loop whose state never changes. *)
Lemma framed_above_forEach_const {A S : Type} (n : nat) (l : list A)
    (f : A -> S -> M S) (s : S) :
  (forall x, framed_above n (f x s)) -> (forall x, returns_only (f x s) s) ->
  framed_above n (forEach l f s).
Proof.
  intros Hf Hr. induction l as [|x l IH]; simpl.
  - apply framed_above_ret.
  - intros h Hn. unfold bind. specialize (Hf x h Hn). specialize (Hr x h).
    destruct (f x s h) as [[s1|e] h1]; cbn [fst snd] in *; [|exact Hf].
    rewrite (Hr s1 eq_refl). eapply evolves_trans; [exact Hf|].
    apply IH. destruct Hf as (L & _). lia.
Qed.

(** ** How the basic computations run *)

Lemma run_bind_ret {A B : Type} (a : A) (k : A -> M B) (h : heap) :
  bind (ret a) k h = k a h.
Proof. reflexivity. Qed.

Lemma run_bind_reading {A B : Type} (f : heap -> A) (k : A -> M B) (h : heap) :
  bind (reading f) k h = k (f h) h.
Proof. reflexivity. Qed.

Lemma run_bind_reading_or_throw {A B : Type} (f : heap -> outcome A) (k : A -> M B)
    (h : heap) :
  bind (reading_or_throw f) k h
  = match f h with
    | Return a => k a h
    | Raise e => (Raise e, h)
    end.
Proof. unfold bind, reading_or_throw. now destruct (f h). Qed.

Lemma run_bind_alloc {B : Type} (c : cell) (k : loc -> M B) (h : heap) :
  bind (alloc c) k h = k (length h) (h ++ [c]).
Proof. reflexivity. Qed.

Lemma run_bind_new_object {B : Type} (ps : sprops) (k : sval -> M B) (h : heap) :
  bind (new_object ps) k h = k (SRef (length h)) (h ++ [CObj ps]).
Proof. reflexivity. Qed.

Lemma run_bind_new_array {B : Type} (elems : list sval) (k : sval -> M B) (h : heap) :
  bind (new_array elems) k h = k (SRef (length h)) (h ++ [array_cell elems]).
Proof. reflexivity. Qed.

End StoreFrame.

Section StoreCompiler.

Import Store.

Variable Number_toString : number -> string.
Variable StringToNumber : string -> number.
Variable Error_toString : exn -> string.

Local Abbreviation convertLogicalOperator :=
  (convertLogicalOperator Number_toString Error_toString).
Local Abbreviation convertSearchOperator :=
  (convertSearchOperator Number_toString Error_toString).
Local Abbreviation transferField :=
  (transferField Number_toString StringToNumber Error_toString).
Local Abbreviation toMongooseFilterExpression_body :=
  (toMongooseFilterExpression_body Number_toString StringToNumber Error_toString).
Local Abbreviation toMongooseFilterExpression :=
  (toMongooseFilterExpression Number_toString StringToNumber Error_toString).

(** ** The compiler writes only to what it allocates *)

Section Open.

Variable self : sval -> M sval.
Hypothesis self_framed : forall v : sval, framed (self v).

(** The loop of [convertLogicalOperator]: [result] keeps referring to
    the new array, and only that array is written. *)
Lemma push_each_compiled (a : loc) (operator : string) (lst result : loc) :
  lst < result ->
  forall (indices : list nat) (u : unit) (h : heap) (r : outcome unit * heap),
    result < length h ->
    cell_at h result = CObj [(operator, SRef lst)] ->
    array_forEach a indices
      (fun statement (_ : unit) =>
         let! compiled := self statement in
         let! target := reading_or_throw (fun h => get h (SRef result) operator) in
         push target compiled) u h = r ->
    evolves lst h (snd r) /\ cell_at (snd r) result = CObj [(operator, SRef lst)].
Proof.
  intros Hlt. induction indices as [|i rest IH]; intros u h r Hres Hcell Hr.
  - subst r. split; [apply evolves_refl|exact Hcell].
  - cbn [array_forEach] in Hr.
    destruct (assoc (index_key i) (cell_props (cell_at h a))) as [x|];
      [|now apply (IH u h r)].
    unfold bind at 1 in Hr. unfold bind at 1 in Hr.
    pose proof (self_framed x h) as Hx.
    destruct (self x h) as [[compiled|e] h1]; cbn [fst snd] in *.
    2:{ subst r. split; [eapply evolves_weaken; [|exact Hx]; lia|].
        cbn [snd]. rewrite (cell_at_unchanged _ _ _ _ Hx); auto. }
    assert (Hcell1 : cell_at h1 result = CObj [(operator, SRef lst)])
      by (rewrite (cell_at_unchanged _ _ _ _ Hx); auto).
    assert (Hlen1 : result < length h1) by (destruct Hx as (L & _); lia).
    assert (Hget : get h1 (SRef result) operator = Return (SRef lst)).
    { simpl. rewrite Hcell1. simpl. now rewrite String.eqb_refl. }
    unfold bind at 1, reading_or_throw in Hr. rewrite Hget in Hr.
    assert (Hx1 : evolves lst h h1) by (eapply evolves_weaken; [|exact Hx]; lia).
    pose proof (framed_above_push lst lst compiled (le_n _) h1) as Hp.
    assert (Hlst1 : lst <= length h1) by lia. specialize (Hp Hlst1).
    assert (Hcell2 : cell_at (snd (push (SRef lst) compiled h1)) result
                     = CObj [(operator, SRef lst)]).
    { unfold push, write. destruct (cell_at h1 lst); simpl; [exact Hcell1|].
      rewrite cell_at_insert_ne by lia. exact Hcell1. }
    destruct (push (SRef lst) compiled h1) as [[[]|e] h2]; cbn [fst snd] in *.
    + destruct (IH tt h2 r) as [E2 C2]; auto.
      { destruct Hp as (L & _). lia. }
      split; [|exact C2].
      eapply evolves_trans; [exact Hx1|]. eapply evolves_trans; [exact Hp|exact E2].
    + subst r. split; [|exact Hcell2]. eapply evolves_trans; [exact Hx1|exact Hp].
Qed.

Lemma convertLogicalOperator_framed (fieldType : string) (fieldValue fieldName : sval) :
  framed (convertLogicalOperator self fieldType fieldValue fieldName).
Proof.
  intros h. unfold Store.convertLogicalOperator.
  destruct (negb (fieldType =? "array")%string); [apply evolves_refl|].
  rewrite run_bind_reading_or_throw.
  destruct (ToString Number_toString Error_toString h fieldName) as [name|e];
    [|apply evolves_refl].
  cbv zeta.
  rewrite run_bind_new_array, run_bind_new_object, run_bind_reading.
  set (operator := String.append "$" name).
  set (h1 := (h ++ [array_cell []]) ++ [CObj [(operator, SRef (length h))]]).
  assert (H01 : evolves (length h) h h1).
  { eapply evolves_trans; [apply evolves_alloc; lia|].
    apply evolves_alloc. rewrite length_app. lia. }
  assert (Hlen : length (h ++ [array_cell []]) = S (length h))
    by (rewrite length_app; simpl; lia).
  assert (Hcell : cell_at h1 (length (h ++ [array_cell []]))
                  = CObj [(operator, SRef (length h))]) by apply cell_at_new.
  destruct fieldValue as [| | | | | |a]; try exact H01.
  destruct (kindOf h1 (SRef a) =? "array")%string; [|exact H01].
  rewrite run_bind_reading. unfold bind at 1.
  match goal with
  | |- context [array_forEach ?a' ?i ?f ?u ?hh] =>
      destruct (push_each_compiled a' operator (length h)
                  (length (h ++ [array_cell []])) ltac:(rewrite Hlen; lia) i u hh _
                  ltac:(unfold h1; rewrite !length_app; simpl; lia) Hcell eq_refl)
        as [E _];
      destruct (array_forEach a' i f u hh) as [[[]|e] h2]
  end; simpl in *; eapply evolves_trans; eauto.
Qed.

Ltac frame :=
  repeat match goal with
    | |- framed_above _ (ret _) => apply framed_above_ret
    | |- framed_above _ (raise _) => apply framed_above_raise
    | |- framed_above _ (reading _) => apply framed_above_reading
    | |- framed_above _ (reading_or_throw _) => apply framed_above_reading_or_throw
    | |- framed_above _ (new_object _) => apply framed_above_new_object
    | |- framed_above _ (new_array _) => apply framed_above_new_array
    | |- framed_above _ (alloc _) => apply framed_above_alloc
    | |- framed_above _ (bind _ _) => apply framed_above_bind; [|intros ?]
    | |- framed_above _ (if ?b then _ else _) => destruct b
    end.

Lemma convertSearchOperator_framed_above (n : nat)
    (fieldName : sval) (fieldType : string) (fieldValue : sval) :
  framed_above n (convertSearchOperator self fieldName fieldType fieldValue).
Proof.
  unfold Store.convertSearchOperator, convertContains, convertNotContains,
    convertStartsWith, convertEndsWith, convertIn.
  frame.
  apply framed_is_framed_above, convertLogicalOperator_framed.
Qed.

Lemma transferField_framed_above (n : nat) (filter : sval) (field : string) (t : loc) :
  n <= t -> framed_above n (transferField self filter field t).
Proof.
  intros Ht. unfold Store.transferField. frame.
  - apply convertSearchOperator_framed_above.
  - now apply framed_above_set.
  - apply convertSearchOperator_framed_above.
  - now apply framed_above_Object_assign.
  - now apply framed_above_set.
Qed.

Lemma transferField_returns (filter : sval) (field : string) (t : loc) :
  returns_only (transferField self filter field t) t.
Proof.
  unfold Store.transferField.
  repeat (apply returns_only_bind; intros ?).
  repeat match goal with |- returns_only (if ?b then _ else _) _ => destruct b end.
  - repeat (apply returns_only_bind; intros ?). apply returns_only_ret.
  - apply returns_only_bind; intros ?. unfold Object_assign.
    repeat (apply returns_only_bind; intros ?). apply returns_only_ret.
  - repeat (apply returns_only_bind; intros ?). apply returns_only_ret.
Qed.

(** One call of the compiler: what existed is kept, and what it returns is
    an object it has allocated. *)
Lemma toMongooseFilterExpression_body_frame (filter : sval) (h : heap) :
  evolves (length h) h (snd (toMongooseFilterExpression_body self filter h))
  /\ forall r : sval,
      fst (toMongooseFilterExpression_body self filter h) = Return r ->
      exists t : loc,
        r = SRef t /\ length h <= t
        /\ t < length (snd (toMongooseFilterExpression_body self filter h))
        /\ is_array (cell_at (snd (toMongooseFilterExpression_body self filter h)) t)
           = false.
Proof.
  unfold Store.toMongooseFilterExpression_body.
  assert (Hrest : forall (f : sval) (h0 : heap),
    evolves (length h) h h0 ->
    let m :=
      (let! fields := reading_or_throw (fun h => Object_keys h f) in
       let! transferedFilter := alloc (CObj []) in
       let! transferedFilter := forEach fields (transferField self f) transferedFilter in
       ret (SRef transferedFilter)) in
    evolves (length h) h (snd (m h0))
    /\ forall r : sval,
        fst (m h0) = Return r ->
        exists t : loc,
          r = SRef t /\ length h <= t /\ t < length (snd (m h0))
          /\ is_array (cell_at (snd (m h0)) t) = false).
  { intros f h0 H0. cbv zeta. rewrite run_bind_reading_or_throw.
    destruct (Object_keys h0 f) as [fields|e]; [|split; [exact H0|discriminate]].
    rewrite run_bind_alloc.
    assert (Hlen0 : length h <= length h0) by (destruct H0 as (L & _); exact L).
    assert (H1 : evolves (length h0) h0 (h0 ++ [CObj []]))
      by (apply evolves_alloc; lia).
    assert (Hlen1 : length (h0 ++ [CObj []]) = S (length h0))
      by (rewrite length_app; simpl; lia).
    pose proof (framed_above_forEach_const (length h0) fields (transferField self f)
                  (length h0)
                  (fun x => transferField_framed_above (length h0) f x _ (le_n _))
                  (fun x => transferField_returns f x _)
                  (h0 ++ [CObj []]) ltac:(lia)) as Hloop.
    pose proof (returns_only_forEach fields (transferField self f) (length h0)
                  (fun x s' => transferField_returns f x s')
                  (h0 ++ [CObj []])) as Hret.
    unfold bind.
    destruct (forEach fields (transferField self f) (length h0) (h0 ++ [CObj []]))
      as [[t|e] h2]; cbn [fst snd] in *.
    - assert (H02 : evolves (length h) h h2).
      { eapply evolves_trans; [exact H0|].
        eapply evolves_weaken; [exact Hlen0|].
        eapply evolves_trans; [exact H1|exact Hloop]. }
      split; [exact H02|].
      unfold ret. cbn [fst snd].
      intros r [= <-]. exists t. rewrite (Hret t eq_refl).
      destruct Hloop as (L & _ & K).
      split; [reflexivity|]. split; [lia|]. split; [lia|].
      rewrite K by lia. now rewrite cell_at_new.
    - split; [|discriminate].
      eapply evolves_trans; [exact H0|].
      eapply evolves_weaken; [exact Hlen0|].
      eapply evolves_trans; [exact H1|exact Hloop]. }
  destruct filter; try (rewrite run_bind_ret; apply Hrest, evolves_refl).
  rewrite run_bind_new_object. destruct (Hrest (SRef (length h)) (h ++ [CObj []])) as [E R].
  { apply evolves_alloc. lia. }
  split; [exact E|exact R].
Qed.

End Open.

(** The compiler, at any stack depth, writes no cell that exists when it is
    called. *)
Lemma toMongooseFilterExpression_framed (stack : nat) (filter : sval) :
  framed (toMongooseFilterExpression stack filter).
Proof.
  revert filter. induction stack as [|d IH]; intros filter h; simpl.
  - apply evolves_refl.
  - now apply toMongooseFilterExpression_body_frame.
Qed.

End StoreCompiler.

Section StoreReadback.

Import Store.

(** ** Reading a value back after the heap has grown *)

(** A value that does not refer beyond the first [n] cells. *)
Definition refs_below (n : nat) (v : sval) : bool :=
  match v with
  | SRef l => Nat.ltb l n
  | _ => true
  end.

(** A heap without dangling references. *)
Definition closed (h : heap) : bool :=
  forallb (fun c => forallb (fun p => refs_below (length h) (snd p)) (cell_props c)) h.

Lemma closed_cell (h : heap) (l : loc) (k : string) (v : sval) :
  closed h = true -> l < length h -> In (k, v) (cell_props (cell_at h l)) ->
  refs_below (length h) v = true.
Proof.
  intros Hc Hl Hin. unfold closed in Hc. rewrite forallb_forall in Hc.
  destruct (lookup_lt_is_Some_2 h l Hl) as [c Hcell].
  unfold cell_at in Hin. rewrite Hcell in Hin. simpl in Hin.
  assert (Hc' : In c h).
  { apply list_elem_of_In. apply list_elem_of_lookup. now exists l. }
  specialize (Hc c Hc'). rewrite forallb_forall in Hc. exact (Hc (k, v) Hin).
Qed.

Lemma assoc_In {A : Type} (k : string) (ps : list (string * A)) (v : A) :
  assoc k ps = Some v -> exists k', In (k', v) ps.
Proof.
  induction ps as [|[k' v'] ps IH]; simpl; [discriminate|].
  destruct (String.eqb k' k).
  - intros [= <-]. exists k'. now left.
  - intros H. destruct (IH H) as [k'' Hin]. exists k''. now right.
Qed.

(** What a value unfolds to does not depend on cells allocated later. *)
Lemma read_value_extension (h fresh : heap) :
  closed h = true ->
  forall (depth : nat) (v : sval),
    refs_below (length h) v = true ->
    read_value depth (h ++ fresh) v = read_value depth h v.
Proof.
  intros Hc. induction depth as [|d IH]; intros v Hv; destruct v as [| | | | | |l];
    try reflexivity.
  simpl in Hv. apply Nat.ltb_lt in Hv. simpl. rewrite cell_at_app by exact Hv.
  destruct (cell_at h l) as [ps|len ps] eqn:E.
  - f_equal. apply map_ext_in. intros [k x] Hin. simpl. f_equal. apply IH.
    apply (closed_cell h l k x Hc Hv). now rewrite E.
  - f_equal. apply map_ext_in. intros i _.
    destruct (assoc (index_key i) ps) as [x|] eqn:Ex; [|reflexivity].
    apply IH. destruct (assoc_In _ _ _ Ex) as [k' Hin].
    apply (closed_cell h l k' x Hc Hv). now rewrite E.
Qed.

End StoreReadback.

Section StoreClaims.

Import Store.

Variable Number_toString : number -> string.
Variable StringToNumber : string -> number.
Variable Error_toString : exn -> string.

Local Abbreviation toMongooseFilterExpression :=
  (toMongooseFilterExpression Number_toString StringToNumber Error_toString).

(** C7.  A call of the compiler, on any heap: the heap it leaves is the
    heap it found, with new cells after it, so every object that existed
    is as it was; on a heap without dangling references the input unfolds
    to the same tree before and after, at every depth; and what the call
    returns is an object allocated by the call, a cell that did not exist
    before and so is not the input. *)
Theorem compiler_keeps_its_input (stack : nat) (filter : sval) (h : heap) :
  let after := snd (toMongooseFilterExpression stack filter h) in
  (exists fresh : heap, after = h ++ fresh)
  /\ (closed h = true -> refs_below (length h) filter = true ->
      forall depth : nat, read_value depth after filter = read_value depth h filter)
  /\ (forall compiled : sval,
         fst (toMongooseFilterExpression stack filter h) = Return compiled ->
         exists (t : loc) (ps : sprops),
           compiled = SRef t /\ h !! t = None /\ after !! t = Some (CObj ps)
           /\ (refs_below (length h) filter = true -> compiled <> filter)).
Proof.
  cbv zeta.
  pose proof (toMongooseFilterExpression_framed Number_toString StringToNumber
                Error_toString stack filter h) as Hf.
  destruct (evolves_extension _ _ Hf) as [fresh Hfresh].
  split; [now exists fresh|]. split.
  - intros Hc Hv depth. rewrite Hfresh. now apply read_value_extension.
  - intros compiled Hret. destruct stack as [|d]; [discriminate Hret|].
    simpl in Hret.
    destruct (toMongooseFilterExpression_body_frame Number_toString StringToNumber
                Error_toString (toMongooseFilterExpression d)
                (toMongooseFilterExpression_framed Number_toString StringToNumber
                   Error_toString d) filter h) as [_ Hbody].
    destruct (Hbody compiled Hret) as (t & -> & Hge & Hlt & Hkind).
    simpl. destruct (lookup_lt_is_Some_2 _ t Hlt) as [c Hc].
    unfold cell_at in Hkind. simpl in Hc. rewrite Hc in Hkind. simpl in Hkind.
    destruct c as [ps|]; [|discriminate Hkind].
    exists t, ps. split; [reflexivity|]. split; [now apply lookup_ge_None_2|].
    split; [exact Hc|].
    intros Hv Heq. rewrite <- Heq in Hv. simpl in Hv. apply Nat.ltb_lt in Hv. lia.
Qed.

End StoreClaims.

Section StoreClean.

Import Store.

(** ** [cleanDocumentUpdate] *)

Lemma assoc_skip {A : Type} (k : string) (done rest : list (string * A)) :
  ~ In k (map fst done) -> assoc k (done ++ rest) = assoc k rest.
Proof.
  induction done as [|[k' v'] done IH]; simpl; [reflexivity|].
  intros Hn. destruct (String.eqb_spec k' k) as [->|Hne].
  - exfalso. apply Hn. now left.
  - apply IH. intros Hin. apply Hn. now right.
Qed.

Lemma delete_prop_absent (k : string) (ps : sprops) :
  ~ In k (map fst ps) -> delete_prop ps k = ps.
Proof.
  unfold delete_prop. induction ps as [|[k' v'] ps IH]; simpl; [reflexivity|].
  intros Hn. destruct (String.eqb_spec k' k) as [->|Hne]; simpl.
  - exfalso. apply Hn. now left.
  - f_equal. apply IH. intros Hin. apply Hn. now right.
Qed.

Lemma delete_prop_app (k : string) (ps qs : sprops) :
  delete_prop (ps ++ qs) k = delete_prop ps k ++ delete_prop qs k.
Proof. unfold delete_prop. induction ps as [|p ps IH]; simpl; [reflexivity|].
  destruct (negb _); simpl; now rewrite IH.
Qed.

(** The callback of [cleanDocumentUpdate]. *)
Local Abbreviation clean_key documentUpdate :=
  (fun (key : string) (_ : unit) =>
     let! current := reading_or_throw (fun h => get h documentUpdate key) in
     if negb (truthy current) then delete_of documentUpdate key else ret tt).

(** The loop, with the keys in [done] already visited. *)
Lemma clean_loop (l : loc) (rest done : sprops) (h : heap) :
  h !! l = Some (CObj (done ++ rest)) ->
  NoDup (map fst (done ++ rest)) ->
  forEach (map fst rest) (clean_key (SRef l)) tt h
  = (Return tt, <[l := CObj (done ++ List.filter (fun p => truthy (snd p)) rest)]> h).
Proof.
  revert done h. induction rest as [|[k v] rest IH]; intros done h Hcell Hnd.
  - simpl. unfold ret. f_equal. symmetry. now apply list_insert_id.
  - simpl map. cbn [forEach].
    assert (Hk1 : ~ In k (map fst done)).
    { rewrite map_app in Hnd. simpl in Hnd. apply NoDup_app in Hnd as (_ & Hdis & _).
      intros Hin. apply list_elem_of_In in Hin. apply (Hdis k Hin). now left. }
    assert (Hk2 : ~ In k (map fst rest)).
    { rewrite map_app in Hnd. simpl in Hnd. apply NoDup_app in Hnd as (_ & _ & Hr).
      apply NoDup_cons in Hr as [Hr _]. intros Hin. apply Hr. now apply list_elem_of_In. }
    assert (Hget : get h (SRef l) k = Return v).
    { simpl. unfold cell_at. rewrite Hcell. simpl. rewrite assoc_skip by exact Hk1.
      simpl. now rewrite String.eqb_refl. }
    unfold bind at 1. rewrite run_bind_reading_or_throw, Hget.
    destruct (truthy v) eqn:Ev; cbn [negb]; cbv beta iota.
    + unfold ret at 1. cbv beta iota.
      rewrite (IH (done ++ [(k, v)]) h).
      * simpl List.filter. rewrite Ev. now rewrite <- app_assoc.
      * now rewrite <- app_assoc.
      * now rewrite <- app_assoc.
    + unfold delete_of, delete_property, write, cell_at. rewrite Hcell. simpl.
      assert (Hdel : delete_prop (done ++ (k, v) :: rest) k = done ++ rest).
      { rewrite delete_prop_app. simpl. rewrite String.eqb_refl. simpl.
        now rewrite !delete_prop_absent. }
      rewrite Hdel. rewrite (IH done).
      * rewrite list_insert_insert_eq. simpl List.filter. now rewrite Ev.
      * apply list_lookup_insert_eq. apply lookup_lt_is_Some_1. now exists (CObj (done ++ (k, v) :: rest)).
      * rewrite map_app in *. simpl in Hnd. apply NoDup_app in Hnd as (H1 & H2 & H3).
        apply NoDup_cons in H3 as [_ H3]. apply NoDup_app. repeat split; auto.
        intros x Hx Hx'. apply (H2 x Hx). now right.
Qed.

(** [cleanDocumentUpdate] on an object: the object itself loses its falsy
    properties, the others stay in order, and the same reference comes
    back. *)
Lemma cleanDocumentUpdate_object (l : loc) (ps : sprops) (h : heap) :
  h !! l = Some (CObj ps) ->
  NoDup (map fst ps) ->
  cleanDocumentUpdate (SRef l) h
  = (Return (SRef l), <[l := CObj (List.filter (fun p => truthy (snd p)) ps)]> h).
Proof.
  intros Hcell Hnd. unfold cleanDocumentUpdate.
  rewrite run_bind_reading_or_throw. cbn [Object_keys]. unfold cell_at at 1.
  rewrite Hcell. cbn [default cell_props id]. unfold bind at 1.
  rewrite (clean_loop l ps [] h Hcell Hnd). reflexivity.
Qed.

Lemma assoc_delete_prop (k k' : string) (ps : sprops) :
  assoc k (delete_prop ps k') = if String.eqb k k' then None else assoc k ps.
Proof.
  unfold delete_prop. induction ps as [|[k0 v0] ps IH]; simpl.
  - now destruct (String.eqb k k').
  - destruct (String.eqb_spec k0 k') as [->|Hne]; simpl.
    + rewrite IH. destruct (String.eqb_spec k k') as [->|Hkk]; [reflexivity|].
      destruct (String.eqb_spec k' k) as [E|_]; [now elim Hkk|reflexivity].
    + destruct (String.eqb_spec k0 k) as [->|Hk0]; [|exact IH].
      destruct (String.eqb_spec k k') as [E|_]; [now elim Hne|reflexivity].
Qed.

Lemma assoc_key_In {A : Type} (k : string) (ps : list (string * A)) (v : A) :
  assoc k ps = Some v -> In k (map fst ps).
Proof.
  induction ps as [|[k' v'] ps IH]; simpl; [discriminate|].
  destruct (String.eqb_spec k' k) as [->|Hne]; [now left|].
  intros H. right. now apply IH.
Qed.

(** One round of the loop. *)
Lemma clean_key_step (l : loc) (key : string) (h : heap) :
  (let! current := reading_or_throw (fun h => get h (SRef l) key) in
   if negb (truthy current) then delete_of (SRef l) key else ret tt) h
  = match get h (SRef l) key with
    | Return current =>
        (Return tt,
         if negb (truthy current)
         then <[l := match cell_at h l with
                     | CObj ps => CObj (delete_prop ps key)
                     | CArr len ps => CArr len (delete_prop ps key)
                     end]> h
         else h)
    | Raise e => (Raise e, h)
    end.
Proof.
  rewrite run_bind_reading_or_throw.
  destruct (get h (SRef l) key) as [current|e]; [|reflexivity].
  destruct (negb (truthy current)); [|reflexivity].
  unfold delete_of, delete_property, write. now destruct (cell_at h l).
Qed.

Lemma get_ref_returns (h : heap) (l : loc) (key : string) :
  exists current : sval, get h (SRef l) key = Return current.
Proof.
  cbn. destruct (cell_at h l); [eauto|]. destruct (String.eqb key "length"); eauto.
Qed.

(** The loop on an object, whatever its keys: what can still be read from
    the object was there before, and no visited key reads as a falsy
    value. *)
Lemma clean_loop_reads (l : loc) (keys : list string) (ps : sprops) (h : heap) :
  h !! l = Some (CObj ps) ->
  exists ps' : sprops,
    forEach keys (clean_key (SRef l)) tt h = (Return tt, <[l := CObj ps']> h)
    /\ (forall k v, assoc k ps' = Some v -> assoc k ps = Some v)
    /\ (forall k v, In k keys -> assoc k ps' = Some v -> truthy v = true).
Proof.
  revert ps h. induction keys as [|key keys IH]; intros ps h Hcell.
  - exists ps. split; [|split].
    + cbn. unfold ret. f_equal. symmetry. now apply list_insert_id.
    + auto.
    + intros k v [].
  - cbn [forEach]. unfold bind at 1. cbv beta. rewrite clean_key_step.
    assert (Hget : get h (SRef l) key = Return (or_undefined (assoc key ps)))
      by (cbn; unfold cell_at; now rewrite Hcell).
    rewrite Hget.
    destruct (truthy (or_undefined (assoc key ps))) eqn:Ev; cbn [negb]; cbv beta iota.
    + destruct (IH ps h Hcell) as (ps' & Hrun & Hold & Hkeys).
      exists ps'. split; [exact Hrun|]. split; [exact Hold|].
      intros k v [<-|Hin] Hk; [|now apply (Hkeys k v)].
      apply Hold in Hk. rewrite Hk in Ev. exact Ev.
    + unfold cell_at. rewrite Hcell. cbn [default id].
      assert (Hl : l < length h) by (apply lookup_lt_is_Some_1; eauto).
      destruct (IH (delete_prop ps key) (<[l := CObj (delete_prop ps key)]> h))
        as (ps' & Hrun & Hold & Hkeys).
      { now apply list_lookup_insert_eq. }
      exists ps'. rewrite Hrun, list_insert_insert_eq.
      split; [reflexivity|]. split.
      * intros k v Hk. apply Hold in Hk. rewrite assoc_delete_prop in Hk.
        destruct (String.eqb k key); [discriminate|exact Hk].
      * intros k v [<-|Hin] Hk; [|now apply (Hkeys k v)].
        apply Hold in Hk. rewrite assoc_delete_prop, String.eqb_refl in Hk.
        discriminate.
Qed.

Lemma insert_cell_at (h : heap) (l : loc) : <[l := cell_at h l]> h = h.
Proof.
  destruct (h !! l) as [c|] eqn:E.
  - unfold cell_at. rewrite E. now apply list_insert_id.
  - apply list_insert_ge. now apply lookup_ge_None_1.
Qed.

(** The loop writes the cell of its argument only, keeps its kind, and
    does not throw. *)
Lemma clean_loop_writes (l : loc) (keys : list string) (h : heap) :
  exists c : cell,
    forEach keys (clean_key (SRef l)) tt h = (Return tt, <[l := c]> h)
    /\ is_array c = is_array (cell_at h l).
Proof.
  revert h. induction keys as [|key keys IH]; intros h.
  - exists (cell_at h l). split; [|reflexivity]. cbn. unfold ret.
    now rewrite insert_cell_at.
  - cbn [forEach]. unfold bind at 1. cbv beta. rewrite clean_key_step.
    destruct (get_ref_returns h l key) as [current ->].
    destruct (negb (truthy current)); cbv beta iota; [|apply IH].
    match goal with |- context [forEach keys _ tt ?hh] => destruct (IH hh) as (c & Hc & Hk) end.
    exists c. rewrite Hc, list_insert_insert_eq. split; [reflexivity|].
    rewrite Hk. destruct (Nat.lt_ge_cases l (length h)).
    + rewrite cell_at_insert_eq by lia. now destruct (cell_at h l).
    + now rewrite list_insert_ge by lia.
Qed.

Lemma cleanDocumentUpdate_ref (l : loc) (h : heap) :
  cleanDocumentUpdate (SRef l) h
  = match forEach (map fst (cell_props (cell_at h l))) (clean_key (SRef l)) tt h with
    | (Return _, h') => (Return (SRef l), h')
    | (Raise e, h') => (Raise e, h')
    end.
Proof.
  unfold cleanDocumentUpdate. rewrite run_bind_reading_or_throw. cbn [Object_keys].
  unfold bind at 1.
  now destruct (forEach (map fst (cell_props (cell_at h l))) (clean_key (SRef l)) tt h)
    as [[[]|e] h'].
Qed.

(** After [cleanDocumentUpdate], whatever the object was: no property of
    it reads as a falsy value; the other cells are as they were. *)
Lemma cleanDocumentUpdate_reads (l : loc) (h : heap) :
  fst (cleanDocumentUpdate (SRef l) h) = Return (SRef l)
  /\ length (snd (cleanDocumentUpdate (SRef l) h)) = length h
  /\ (forall l' : loc, l' <> l -> snd (cleanDocumentUpdate (SRef l) h) !! l' = h !! l')
  /\ (forall (ps' : sprops) (k : string) (v : sval),
         snd (cleanDocumentUpdate (SRef l) h) !! l = Some (CObj ps') ->
         assoc k ps' = Some v -> truthy v = true).
Proof.
  rewrite cleanDocumentUpdate_ref.
  set (keys := map fst (cell_props (cell_at h l))).
  destruct (h !! l) as [[ps|len ps]|] eqn:Ecell.
  - destruct (clean_loop_reads l keys ps h Ecell) as (ps' & Hrun & Hold & Hkeys).
    rewrite Hrun. cbn [fst snd ret].
    assert (Hl : l < length h) by (apply lookup_lt_is_Some_1; eauto).
    split; [reflexivity|]. split; [apply length_insert|]. split.
    + intros l' Hl'. now apply list_lookup_insert_ne.
    + intros ps'' k v Hc Hk. rewrite list_lookup_insert_eq in Hc by exact Hl.
      injection Hc as <-. apply (Hkeys k v); [|exact Hk].
      unfold keys, cell_at. rewrite Ecell. cbn [default id cell_props].
      apply Hold in Hk. now apply assoc_key_In in Hk.
  - destruct (clean_loop_writes l keys h) as (c & Hc & Hk).
    rewrite Hc. cbn [fst snd ret].
    assert (Hl : l < length h) by (apply lookup_lt_is_Some_1; eauto).
    split; [reflexivity|]. split; [apply length_insert|]. split.
    + intros l' Hl'. now apply list_lookup_insert_ne.
    + intros ps' k v Hc'. rewrite list_lookup_insert_eq in Hc' by exact Hl.
      injection Hc' as ->. unfold cell_at in Hk. rewrite Ecell in Hk. discriminate Hk.
  - assert (Hkeys : keys = []).
    { unfold keys, cell_at. now rewrite Ecell. }
    rewrite Hkeys. cbn. split; [reflexivity|]. split; [reflexivity|].
    split; [reflexivity|]. intros ps' k v Hc. rewrite Ecell in Hc. discriminate.
Qed.

End StoreClean.

(** * The data source *)

Section Facade.

Import Store.

Variable Number_toString : number -> string.
Variable StringToNumber : string -> number.
Variable Error_toString : exn -> string.

(** The database: any state [W] and any way of answering a call. *)
Variable W : Type.
Variable env : W -> call -> heap -> reply * heap * W.

Local Abbreviation toMongooseFilterExpression :=
  (toMongooseFilterExpression Number_toString StringToNumber Error_toString).
Local Abbreviation all := (all Number_toString StringToNumber Error_toString).
Local Abbreviation list_ := (list_ Number_toString StringToNumber Error_toString).
Local Abbreviation listAggregation :=
  (listAggregation Number_toString StringToNumber Error_toString).
Local Abbreviation page_object :=
  (page_object Number_toString StringToNumber Error_toString).
Local Abbreviation run := (run W env).

(** ** The calls of a task *)

(** Every call the task can make satisfies [P], whatever the replies. *)
Inductive every_call (P : call -> heap -> Prop) : task -> Prop :=
| every_call_settle (r : settled) (h : heap) : every_call P (Settle r h)
| every_call_step (c : call) (h : heap) (k : reply -> heap -> task) :
    P c h -> (forall r h', every_call P (k r h')) -> every_call P (Call c h k).

Lemma every_call_run (P : call -> heap -> Prop) (t : task) :
  every_call P t ->
  forall (w : W) (c : call) (r : reply) (hc : heap),
    In (c, r, hc) (result_trace W (run t w)) -> P c hc.
Proof.
  induction 1 as [r0 h|c0 h k HP Hk IH]; intros w c r hc Hin.
  - destruct Hin.
  - cbn in Hin. destruct (env w c0 h) as [[r1 h1] w1]. cbn in Hin.
    destruct Hin as [E|Hin].
    + injection E as <- <- <-. exact HP.
    + exact (IH r1 h1 w1 c r hc Hin).
Qed.

Lemma every_call_sync {A : Type} (P : call -> heap -> Prop) (m : M A)
    (handler : sval -> heap -> task) (k : A -> heap -> task) (h : heap) :
  (forall e h', m h = (Raise e, h') -> every_call P (handler e h')) ->
  (forall a h', m h = (Return a, h') -> every_call P (k a h')) ->
  every_call P (sync m handler k h).
Proof.
  intros He Hk. unfold sync. destruct (m h) as [[a|e] h']; auto.
Qed.

Lemma every_call_calling (P : call -> heap -> Prop) (c : call)
    (handler k : sval -> heap -> task) (h : heap) :
  P c h ->
  (forall e h', every_call P (handler e h')) ->
  (forall v h', every_call P (k v h')) ->
  every_call P (calling c handler k h).
Proof.
  intros HP He Hk. apply every_call_step; [exact HP|]. intros [v|e] h'; auto.
Qed.

Lemma every_call_awaiting (P : call -> heap -> Prop) (t : task)
    (k : settled -> heap -> task) :
  every_call P t -> (forall r h, every_call P (k r h)) -> every_call P (awaiting t k).
Proof.
  intros Ht Hk. induction Ht as [r h|c h k' HP Hk' IH]; cbn [awaiting]; [apply Hk|].
  apply every_call_step; [exact HP|]. exact IH.
Qed.

Lemma every_call_push_each (P : call -> heap -> Prop) (a : loc) (indices : list nat)
    (idList : sval) (handler : sval -> heap -> task) (k : heap -> task) :
  (forall x h, P (ObjectId x) h) ->
  (forall e h, every_call P (handler e h)) ->
  (forall h, every_call P (k h)) ->
  forall h, every_call P (push_each_ObjectId a indices idList handler k h).
Proof.
  intros HP He Hk. induction indices as [|i rest IH]; intros h; cbn [push_each_ObjectId].
  - apply Hk.
  - destruct (assoc (index_key i) (cell_props (cell_at h a))); [|apply IH].
    apply every_call_calling; [apply HP|exact He|]. intros v h'.
    apply every_call_sync; intros; [apply He|apply IH].
Qed.

Lemma every_call_collect_ids (P : call -> heap -> Prop) (id idList : sval)
    (handler : sval -> heap -> task) (k : heap -> task) (h : heap) :
  (forall x h, P (ObjectId x) h) ->
  (forall e h, every_call P (handler e h)) ->
  (forall h, every_call P (k h)) ->
  every_call P (collect_ids id idList handler k h).
Proof.
  intros HP He Hk. unfold collect_ids.
  assert (Harr : forall h0 a,
    every_call P
      match cell_at h0 a with
      | CArr len _ => push_each_ObjectId a (seq 0 len) idList handler k h0
      | CObj _ => k h0
      end).
  { intros h0 a. destruct (cell_at h0 a); [apply Hk|].
    now apply every_call_push_each. }
  destruct id; try apply Hk; try apply Harr.
  apply every_call_calling; [apply HP|exact He|]. intros v h'.
  apply every_call_sync; intros; [apply He|apply Hk].
Qed.

(** ** Tasks that return what goes wrong *)

(** What the [catch] around a call returns for its failure: the data
    source returns the error, except for the lookup of [getById], which
    it turns into [null]. *)
Definition caught (c : call) (e : sval) : sval :=
  match c with
  | Model_findById _ => SNull
  | _ => e
  end.

(** A task all of whose calls are inside such a [try]: a failing call
    ends it with the value of the handler, and it ends in no other way
    than by returning. *)
Inductive guarded : task -> Prop :=
| guarded_settle (v : sval) (h : heap) : guarded (Settle (Fulfilled v) h)
| guarded_call (c : call) (h : heap) (k : reply -> heap -> task) :
    (forall e h', k (Rejected e) h' = Settle (Fulfilled (caught c e)) h') ->
    (forall v h', guarded (k (Resolved v) h')) ->
    guarded (Call c h k).

(** The promise is fulfilled. *)
Definition fulfilled (r : run_result W) : Prop :=
  exists v : sval, result_settled W r = Fulfilled v.

(** Every call that failed during the run decided its result. *)
Definition failures_returned (r : run_result W) : Prop :=
  forall (c : call) (e : sval) (hc : heap),
    In (c, Rejected e, hc) (result_trace W r) ->
    result_settled W r = Fulfilled (caught c e).

(** The task throws before it makes a call. *)
Definition rejected_early (t : task) : Prop :=
  exists (e : sval) (h : heap), t = Settle (RejectedWith e) h.

Lemma guarded_run (t : task) :
  guarded t -> forall w : W, fulfilled (run t w) /\ failures_returned (run t w).
Proof.
  induction 1 as [v h|c h k Hrej Hres IH]; intros w.
  - split; [now exists v|]. intros c e hc [].
  - unfold fulfilled, failures_returned. cbn.
    destruct (env w c h) as [[[v|e0] h1] w1]; cbn.
    + destruct (IH v h1 w1) as [Hf Hr]. split; [exact Hf|].
      intros c' e hc [E|Hin]; [discriminate E|]. exact (Hr c' e hc Hin).
    + rewrite Hrej. cbn. split; [now eexists|].
      intros c' e hc [E|[]]. now injection E as <- <- <-.
Qed.

Lemma rejected_early_or_guarded_run (t : task) :
  rejected_early t \/ guarded t ->
  forall w : W,
    failures_returned (run t w)
    /\ (result_trace W (run t w) <> [] -> fulfilled (run t w)).
Proof.
  intros [(e & h & ->)|Hg] w.
  - split; [intros c e' hc []|]. intros Hne. now elim Hne.
  - destruct (guarded_run t Hg w) as [Hf Hr]. split; [exact Hr|]. intros _. exact Hf.
Qed.

Lemma guarded_sync {A : Type} (m : M A) (k : A -> heap -> task) (h : heap) :
  (forall a h', guarded (k a h')) -> guarded (sync m return_error k h).
Proof.
  intros Hk. unfold sync. destruct (m h) as [[a|e] h']; [apply Hk|].
  apply guarded_settle.
Qed.

Lemma guarded_sync_returning {A : Type} (m : M A) (handler : sval -> heap -> task)
    (k : A -> heap -> task) (h : heap) :
  (exists a h', m h = (Return a, h')) ->
  (forall a h', guarded (k a h')) -> guarded (sync m handler k h).
Proof.
  intros (a & h' & E) Hk. unfold sync. rewrite E. apply Hk.
Qed.

Lemma guarded_calling (c : call) (k : sval -> heap -> task) (h : heap) :
  (forall e, caught c e = e) ->
  (forall v h', guarded (k v h')) -> guarded (calling c return_error k h).
Proof.
  intros Hc Hk. apply guarded_call; [|exact Hk].
  intros e h'. unfold return_error. now rewrite Hc.
Qed.

Lemma guarded_push_each (a : loc) (indices : list nat) (idList : sval)
    (k : heap -> task) :
  (forall h, guarded (k h)) ->
  forall h, guarded (push_each_ObjectId a indices idList return_error k h).
Proof.
  intros Hk. induction indices as [|i rest IH]; intros h; cbn [push_each_ObjectId].
  - apply Hk.
  - destruct (assoc (index_key i) (cell_props (cell_at h a))); [|apply IH].
    apply guarded_calling; [reflexivity|]. intros v h'.
    apply guarded_sync. intros _ h''. apply IH.
Qed.

Lemma guarded_collect_ids (id idList : sval) (k : heap -> task) (h : heap) :
  (forall h, guarded (k h)) -> guarded (collect_ids id idList return_error k h).
Proof.
  intros Hk. unfold collect_ids.
  assert (Harr : forall h0 a,
    guarded
      match cell_at h0 a with
      | CArr len _ => push_each_ObjectId a (seq 0 len) idList return_error k h0
      | CObj _ => k h0
      end).
  { intros h0 a. destruct (cell_at h0 a); [apply Hk|]. now apply guarded_push_each. }
  destruct id; try apply Hk; try apply Harr.
  apply guarded_calling; [reflexivity|]. intros v h'.
  apply guarded_sync. intros _ h''. apply Hk.
Qed.

Lemma early_sync {A : Type} (m : M A) (k : A -> heap -> task) (h : heap) :
  (forall a h', rejected_early (k a h') \/ guarded (k a h')) ->
  rejected_early (sync m uncaught k h) \/ guarded (sync m uncaught k h).
Proof.
  intros Hk. unfold sync. destruct (m h) as [[a|e] h']; [apply Hk|].
  left. now exists e, h'.
Qed.

Lemma with_default_new_object (v : sval) (ps : sprops) (h : heap) :
  exists a h', with_default v (new_object ps) h = (Return a, h').
Proof. destruct v; cbn; eauto. Qed.

Lemma guarded_count_total (datafilter : sval) (k : bool -> sval -> heap -> task)
    (h : heap) :
  (forall b v h', guarded (k b v h')) ->
  guarded (count_total datafilter return_error k h).
Proof.
  intros Hk. unfold count_total. apply guarded_sync. intros empty h'.
  destruct (strict_equals datafilter empty);
    (apply guarded_calling; [reflexivity|]); intros; apply Hk.
Qed.

(** ** The methods *)

Lemma guarded_findOne (filter projection : sval) (h : heap) :
  guarded (findOne filter projection h).
Proof.
  unfold findOne.
  apply guarded_sync_returning; [apply with_default_new_object|]. intros f h1.
  apply guarded_sync_returning; [apply with_default_new_object|]. intros p h2.
  apply guarded_calling; [reflexivity|]. intros. apply guarded_settle.
Qed.

Lemma guarded_find (filter : sval) (h : heap) : guarded (find filter h).
Proof.
  unfold find.
  apply guarded_sync_returning; [apply with_default_new_object|]. intros f h1.
  apply guarded_calling; [reflexivity|]. intros. apply guarded_settle.
Qed.

Lemma guarded_getById (id : sval) (h : heap) : guarded (getById id h).
Proof.
  unfold getById, calling. apply guarded_call; [reflexivity|].
  intros. apply guarded_settle.
Qed.

Lemma guarded_delete (id : sval) (h : heap) : guarded (delete id h).
Proof.
  unfold delete, await_getById, getById, calling. cbn [awaiting].
  apply guarded_call; [reflexivity|]. intros v h'. cbn [awaiting].
  destruct (truthy v); [|apply guarded_settle].
  apply guarded_calling; [reflexivity|]. intros. apply guarded_settle.
Qed.

Lemma guarded_update (id documentUpdate : sval) (h : heap) :
  guarded (update id documentUpdate h).
Proof.
  unfold update, await_getById, getById, calling. cbn [awaiting].
  apply guarded_call; [reflexivity|]. intros v h'. cbn [awaiting].
  destruct (truthy v); [|apply guarded_settle].
  apply guarded_sync. intros _ h1.
  apply guarded_calling; [reflexivity|]. intros. apply guarded_settle.
Qed.

Lemma guarded_deleteManyById (id : sval) (h : heap) : guarded (deleteManyById id h).
Proof.
  unfold deleteManyById.
  apply guarded_sync_returning; [cbn; eauto|]. intros idList h1.
  apply guarded_collect_ids. intros h2.
  apply guarded_sync. intros filter h3.
  apply guarded_calling; [reflexivity|]. intros. apply guarded_settle.
Qed.

Lemma guarded_deleteMany (filter : sval) (h : heap) : guarded (deleteMany filter h).
Proof.
  unfold deleteMany.
  apply guarded_sync_returning; [apply with_default_new_object|]. intros f h1.
  apply guarded_calling; [reflexivity|]. intros. apply guarded_settle.
Qed.

Lemma guarded_updateMany (id documentUpdate : sval) (h : heap) :
  guarded (updateMany id documentUpdate h).
Proof.
  unfold updateMany.
  apply guarded_sync_returning; [cbn; eauto|]. intros idList h1.
  apply guarded_collect_ids. intros h2.
  apply guarded_sync. intros cleaned h3.
  apply guarded_sync. intros filter h4.
  apply guarded_sync. intros upd h5.
  apply guarded_calling; [reflexivity|]. intros. apply guarded_settle.
Qed.

Lemma guarded_findOneAndUpdate (id documentUpdate : sval) (h : heap) :
  guarded (findOneAndUpdate id documentUpdate h).
Proof.
  unfold findOneAndUpdate.
  apply guarded_calling; [reflexivity|]. intros oid h1.
  apply guarded_sync. intros conditions h2.
  apply guarded_sync. intros opts h3.
  apply guarded_calling; [reflexivity|]. intros. apply guarded_settle.
Qed.

Lemma early_all (stack : nat) (opts : sval) (h : heap) :
  rejected_early (all stack opts h) \/ guarded (all stack opts h).
Proof.
  unfold all.
  apply early_sync. intros o h1. apply early_sync. intros f h2.
  apply early_sync. intros filter h3. apply early_sync. intros reduction h4.
  apply early_sync. intros sort h5. right.
  apply guarded_calling; [reflexivity|]. intros. apply guarded_settle.
Qed.

Lemma early_list (this : MongooseDataSource) (stack : nat) (opts : sval) (h : heap) :
  rejected_early (list_ this stack opts h) \/ guarded (list_ this stack opts h).
Proof.
  unfold list_.
  apply early_sync. intros o h1. apply early_sync. intros page h2.
  apply early_sync. intros limit h3. apply early_sync. intros sort h4.
  apply early_sync. intros filter h5. apply early_sync. intros datafilter h6.
  apply early_sync. intros skip h7. right.
  apply guarded_count_total. intros _ totalCount h8.
  apply guarded_calling; [reflexivity|]. intros node h9.
  apply guarded_sync. intros. apply guarded_settle.
Qed.

Lemma early_listAggregation (this : MongooseDataSource) (stack : nat)
    (opts aggregation : sval) (h : heap) :
  rejected_early (listAggregation this stack opts aggregation h)
  \/ guarded (listAggregation this stack opts aggregation h).
Proof.
  unfold listAggregation.
  apply early_sync. intros o h1. apply early_sync. intros agg h1'.
  apply early_sync. intros page h2.
  apply early_sync. intros limit h3. apply early_sync. intros sort h4.
  apply early_sync. intros filter h5. apply early_sync. intros datafilter h6.
  apply early_sync. intros skip h7. right.
  apply guarded_sync. intros first h8. apply guarded_sync. intros sortAggregation h9.
  apply guarded_count_total. intros unfiltered totalCount h10.
  apply guarded_sync. intros _ h11. apply guarded_sync. intros _ h12.
  apply guarded_sync. intros aggregationConcat h13.
  apply guarded_calling; [reflexivity|]. intros node h14.
  apply guarded_sync. intros. apply guarded_settle.
Qed.

(** ** Steps of a method *)

Lemma sync_returns {A : Type} (m : M A) (handler : sval -> heap -> task)
    (k : A -> heap -> task) (h : heap) (a : A) (h' : heap) :
  m h = (Return a, h') -> sync m handler k h = k a h'.
Proof. intros E. unfold sync. now rewrite E. Qed.

Lemma reading_or_throw_heap {A : Type} (f : heap -> outcome A) (h : heap) (a : A)
    (h' : heap) :
  reading_or_throw f h = (Return a, h') -> h' = h.
Proof.
  unfold reading_or_throw. destruct (f h); intros E; now injection E.
Qed.

Lemma field_with_default_empty (o : loc) (k : string) (d : M sval) (h : heap) :
  cell_at h o = CObj [] -> field_with_default (SRef o) k d h = d h.
Proof.
  intros E. unfold field_with_default. rewrite run_bind_reading_or_throw.
  cbn [get]. now rewrite E.
Qed.

(** The compiler returns an object of the heap it leaves. *)
Lemma toMongooseFilterExpression_returns (stack : nat) (filter : sval) (h : heap)
    (compiled : sval) (h' : heap) :
  toMongooseFilterExpression stack filter h = (Return compiled, h') ->
  exists t : loc, compiled = SRef t /\ t < length h'.
Proof.
  intros E. destruct stack as [|d]; [discriminate E|].
  destruct (toMongooseFilterExpression_body_frame Number_toString StringToNumber
              Error_toString (toMongooseFilterExpression d)
              (toMongooseFilterExpression_framed Number_toString StringToNumber
                 Error_toString d) filter h) as [_ Hbody].
  change (Store.toMongooseFilterExpression_body Number_toString StringToNumber
            Error_toString (toMongooseFilterExpression d) filter h)
    with (toMongooseFilterExpression (S d) filter h) in Hbody.
  rewrite E in Hbody. cbn [fst snd] in Hbody.
  destruct (Hbody compiled eq_refl) as (t & -> & _ & Hlt & _).
  now exists t.
Qed.

(** The compiler on an empty object. *)
Lemma toMongooseFilterExpression_empty (depth : nat) (f : loc) (h : heap) :
  cell_at h f = CObj [] ->
  toMongooseFilterExpression (S depth) (SRef f) h
  = (Return (SRef (length h)), h ++ [CObj []]).
Proof.
  intros E. cbn [Store.toMongooseFilterExpression].
  unfold Store.toMongooseFilterExpression_body.
  rewrite run_bind_ret, run_bind_reading_or_throw. cbn [Object_keys].
  rewrite E. cbn [cell_props map]. rewrite run_bind_alloc. reflexivity.
Qed.

(** [datafilter === {}]: the new object is no value that existed. *)
Lemma count_total_countDocuments (datafilter : sval) (handler : sval -> heap -> task)
    (k : bool -> sval -> heap -> task) (h : heap) :
  refs_below (length h) datafilter = true ->
  count_total datafilter handler k h
  = calling (Model_countDocuments datafilter) handler (k false) (h ++ [CObj []]).
Proof.
  intros Hr. unfold count_total, sync, new_object.
  assert (E : strict_equals datafilter (SRef (length h)) = false).
  { destruct datafilter; try reflexivity. cbn in Hr |- *.
    apply Nat.ltb_lt in Hr. apply Nat.eqb_neq. lia. }
  now rewrite E.
Qed.

Local Abbreviation not_estimated :=
  (fun (c : call) (_ : heap) => c <> Model_estimatedDocumentCount).

Lemma list_never_estimates (this : MongooseDataSource) (stack : nat) (opts : sval)
    (h : heap) :
  every_call not_estimated (list_ this stack opts h).
Proof.
  unfold list_, uncaught, return_error.
  apply every_call_sync; [intros; apply every_call_settle|]. intros o h1 _.
  apply every_call_sync; [intros; apply every_call_settle|]. intros page h2 _.
  apply every_call_sync; [intros; apply every_call_settle|]. intros limit h3 _.
  apply every_call_sync; [intros; apply every_call_settle|]. intros sort h4 _.
  apply every_call_sync; [intros; apply every_call_settle|]. intros filter h5 _.
  apply every_call_sync; [intros; apply every_call_settle|]. intros datafilter h6 E6.
  apply every_call_sync; [intros; apply every_call_settle|]. intros skip h7 E7.
  apply reading_or_throw_heap in E7. subst h7.
  destruct (toMongooseFilterExpression_returns _ _ _ _ _ E6) as (t & -> & Ht).
  rewrite count_total_countDocuments by (cbn; now apply Nat.ltb_lt).
  apply every_call_calling; [discriminate|intros; apply every_call_settle|].
  intros totalCount h8.
  apply every_call_calling; [discriminate|intros; apply every_call_settle|].
  intros node h9.
  apply every_call_sync; intros; apply every_call_settle.
Qed.

Lemma listAggregation_never_estimates (this : MongooseDataSource) (stack : nat)
    (opts aggregation : sval) (h : heap) :
  every_call not_estimated (listAggregation this stack opts aggregation h).
Proof.
  unfold listAggregation, uncaught, return_error.
  apply every_call_sync; [intros; apply every_call_settle|]. intros o h1 _.
  apply every_call_sync; [intros; apply every_call_settle|]. intros agg h1' _.
  apply every_call_sync; [intros; apply every_call_settle|]. intros page h2 _.
  apply every_call_sync; [intros; apply every_call_settle|]. intros limit h3 _.
  apply every_call_sync; [intros; apply every_call_settle|]. intros sort h4 _.
  apply every_call_sync; [intros; apply every_call_settle|]. intros filter h5 _.
  apply every_call_sync; [intros; apply every_call_settle|]. intros datafilter h6 E6.
  apply every_call_sync; [intros; apply every_call_settle|]. intros skip h7 E7.
  apply reading_or_throw_heap in E7. subst h7.
  destruct (toMongooseFilterExpression_returns _ _ _ _ _ E6) as (t & -> & Ht).
  apply every_call_sync; [intros; apply every_call_settle|]. intros first h8 E8.
  apply every_call_sync; [intros; apply every_call_settle|]. intros sortAgg h9 E9.
  unfold new_array in E8, E9. injection E8 as <- <-. injection E9 as <- <-.
  rewrite count_total_countDocuments
    by (cbn; apply Nat.ltb_lt; rewrite !length_app; cbn; lia).
  apply every_call_calling; [discriminate|intros; apply every_call_settle|].
  intros totalCount h10.
  apply every_call_sync; [intros; apply every_call_settle|]. intros _ h11 _.
  apply every_call_sync; [intros; apply every_call_settle|]. intros _ h12 _.
  apply every_call_sync; [intros; apply every_call_settle|]. intros pipeline h13 _.
  apply every_call_calling; [discriminate|intros; apply every_call_settle|].
  intros node h14.
  apply every_call_sync; intros; apply every_call_settle.
Qed.

(** [list()] with no options, so with the filter [{}]: the first call
    counts with [countDocuments], on a compiled filter that is empty. *)
Lemma list_without_options (this : MongooseDataSource) (depth : nat) (h : heap)
    (w : W) (l : loc) (ps : sprops) (limit : number) :
  options this = SRef l ->
  h !! l = Some (CObj ps) ->
  assoc "limit" ps = Some (SNum limit) ->
  exists (t : loc) (r : reply) (hc : heap) (rest : list (call * reply * heap)),
    result_trace W (run (list_ this (S depth) SUndefined h) w)
    = (Model_countDocuments (SRef t), r, hc) :: rest
    /\ hc !! t = Some (CObj []).
Proof.
  intros Hopt Hcell Hlimit.
  assert (Hl : l < length h) by (apply lookup_lt_is_Some_1; eauto).
  set (h1 := h ++ [CObj []]).
  set (h2 := h1 ++ [CObj []]).
  set (h3 := h2 ++ [CObj []]).
  set (h4 := h3 ++ [CObj []]).
  assert (Ho1 : cell_at h1 (length h) = CObj []) by apply cell_at_new.
  assert (Ho2 : cell_at h2 (length h) = CObj []).
  { unfold h2. rewrite cell_at_app; [exact Ho1|]. unfold h1. rewrite length_app. cbn. lia. }
  assert (E1 : with_default SUndefined (new_object []) h = (Return (SRef (length h)), h1))
    by reflexivity.
  assert (E2 : field_with_default (SRef (length h)) "page" (ret (SNum (num_of_Z 1))) h1
               = (Return (SNum (num_of_Z 1)), h1))
    by now rewrite field_with_default_empty.
  assert (E3 : field_with_default (SRef (length h)) "limit"
                 (reading_or_throw (fun h => get h (options this) "limit")) h1
               = (Return (SNum limit), h1)).
  { rewrite field_with_default_empty by exact Ho1. unfold reading_or_throw.
    rewrite Hopt. cbn [get]. unfold h1. rewrite cell_at_app by exact Hl.
    unfold cell_at. rewrite Hcell. cbn [default id]. now rewrite Hlimit. }
  assert (E4 : field_with_default (SRef (length h)) "sort" (new_object []) h1
               = (Return (SRef (length h1)), h2))
    by now rewrite field_with_default_empty.
  assert (E5 : field_with_default (SRef (length h)) "filter" (new_object []) h2
               = (Return (SRef (length h2)), h3))
    by now rewrite field_with_default_empty.
  assert (E6 : toMongooseFilterExpression (S depth) (SRef (length h2)) h3
               = (Return (SRef (length h3)), h4)).
  { apply toMongooseFilterExpression_empty. apply cell_at_new. }
  unfold list_.
  rewrite (sync_returns _ _ _ _ _ _ E1), (sync_returns _ _ _ _ _ _ E2),
    (sync_returns _ _ _ _ _ _ E3), (sync_returns _ _ _ _ _ _ E4),
    (sync_returns _ _ _ _ _ _ E5), (sync_returns _ _ _ _ _ _ E6).
  unfold sync at 1. unfold reading_or_throw at 1. cbn [js_sub js_mul ToNumber and_then].
  rewrite count_total_countDocuments
    by (cbn; apply Nat.ltb_lt; unfold h4; rewrite length_app; cbn; lia).
  unfold calling. cbn [Store.run].
  destruct (env w (Model_countDocuments (SRef (length h3))) (h4 ++ [CObj []]))
    as [[r hx] wx].
  cbn [result_trace]. eexists _, r, _, _. split; [reflexivity|].
  rewrite lookup_app_l by (unfold h4; rewrite length_app; cbn; lia).
  unfold h4. now apply list_lookup_middle.
Qed.

(** C3 (the code departs from the claim).  The claim: [list] and
    [listAggregation] count with [estimatedDocumentCount] when the
    compiled filter is empty, and with [countDocuments] when it is not.
    The test is [datafilter === {}], the comparison of the compiled
    filter with a new object: it fails for every value that exists, so
    the count is taken with [countDocuments] whatever the filter; no run
    of [list] or [listAggregation] calls [estimatedDocumentCount]; and
    [list()] without options, whose compiled filter is the empty object,
    counts with [countDocuments] on it. *)
Theorem empty_filter_counted_with_countDocuments :
  (forall (datafilter : sval) (handler : sval -> heap -> task)
          (k : bool -> sval -> heap -> task) (h : heap),
      refs_below (length h) datafilter = true ->
      count_total datafilter handler k h
      = calling (Model_countDocuments datafilter) handler (k false) (h ++ [CObj []]))
  /\ (forall (this : MongooseDataSource) (stack : nat) (opts : sval) (h : heap) (w : W)
             (c : call) (r : reply) (hc : heap),
         In (c, r, hc) (result_trace W (run (list_ this stack opts h) w)) ->
         c <> Model_estimatedDocumentCount)
  /\ (forall (this : MongooseDataSource) (stack : nat) (opts aggregation : sval)
             (h : heap) (w : W) (c : call) (r : reply) (hc : heap),
         In (c, r, hc)
            (result_trace W (run (listAggregation this stack opts aggregation h) w)) ->
         c <> Model_estimatedDocumentCount)
  /\ (forall (this : MongooseDataSource) (depth : nat) (h : heap) (w : W) (l : loc)
             (ps : sprops) (limit : number),
         options this = SRef l ->
         h !! l = Some (CObj ps) ->
         assoc "limit" ps = Some (SNum limit) ->
         exists (t : loc) (r : reply) (hc : heap) (rest : list (call * reply * heap)),
           result_trace W (run (list_ this (S depth) SUndefined h) w)
           = (Model_countDocuments (SRef t), r, hc) :: rest
           /\ hc !! t = Some (CObj [])).
Proof.
  split; [exact count_total_countDocuments|]. split; [|split].
  - intros this stack opts h w c r hc Hin.
    exact (every_call_run _ _ (list_never_estimates this stack opts h) w c r hc Hin).
  - intros this stack opts aggregation h w c r hc Hin.
    exact (every_call_run _ _
             (listAggregation_never_estimates this stack opts aggregation h) w c r hc Hin).
  - exact list_without_options.
Qed.

(** ** Failures of the database *)

(** A run that returns, with the failure of the call that failed. *)
Definition catches (t : task) (w : W) : Prop :=
  fulfilled (run t w) /\ failures_returned (run t w).

(** The same once a call has been made. *)
Definition catches_once_calling (t : task) (w : W) : Prop :=
  failures_returned (run t w)
  /\ (result_trace W (run t w) <> [] -> fulfilled (run t w)).

Lemma add_runs (document : sval) (h : heap) (w : W) (r : reply) (h' : heap) (w' : W) :
  env w (Model_new document) h = (r, h', w') ->
  match r with
  | Rejected e => result_settled W (run (add document h) w) = RejectedWith e
  | Resolved newDocument =>
      forall (r2 : reply) (h2 : heap) (w2 : W),
        env w' (Document_save newDocument) h' = (r2, h2, w2) ->
        result_settled W (run (add document h) w)
        = Fulfilled match r2 with
                    | Resolved _ => newDocument
                    | Rejected e => e
                    end
  end.
Proof.
  intros E. unfold add, calling. cbn [Store.run]. rewrite E.
  destruct r as [newDocument|e]; [|reflexivity].
  intros r2 h2 w2 E2. cbn [Store.run result_settled]. rewrite E2.
  now destruct r2.
Qed.

(** C8 (amended).  Against any database, from any heap: [findOne],
    [find], [delete], [deleteMany], [deleteManyById], [update],
    [updateMany] and [findOneAndUpdate] always return, and when a call
    fails they return what their handler makes of the failure: the error,
    or [null] for the lookup of [delete] and [update]; [all], [list] and
    [listAggregation] do the same once they have made a call, and throw
    only before their first call; [add] throws what the constructor of
    the model throws, and returns the error of a failing [save]. *)
Theorem database_failures_returned (h : heap) (w : W) :
  (forall filter projection : sval, catches (findOne filter projection h) w)
  /\ (forall filter : sval, catches (find filter h) w)
  /\ (forall id : sval, catches (delete id h) w)
  /\ (forall filter : sval, catches (deleteMany filter h) w)
  /\ (forall id : sval, catches (deleteManyById id h) w)
  /\ (forall id documentUpdate : sval, catches (update id documentUpdate h) w)
  /\ (forall id documentUpdate : sval, catches (updateMany id documentUpdate h) w)
  /\ (forall id documentUpdate : sval, catches (findOneAndUpdate id documentUpdate h) w)
  /\ (forall (stack : nat) (opts : sval), catches_once_calling (all stack opts h) w)
  /\ (forall (this : MongooseDataSource) (stack : nat) (opts : sval),
         catches_once_calling (list_ this stack opts h) w)
  /\ (forall (this : MongooseDataSource) (stack : nat) (opts aggregation : sval),
         catches_once_calling (listAggregation this stack opts aggregation h) w)
  /\ (forall (document : sval) (r : reply) (h' : heap) (w' : W),
         env w (Model_new document) h = (r, h', w') ->
         match r with
         | Rejected e => result_settled W (run (add document h) w) = RejectedWith e
         | Resolved newDocument =>
             forall (r2 : reply) (h2 : heap) (w2 : W),
               env w' (Document_save newDocument) h' = (r2, h2, w2) ->
               result_settled W (run (add document h) w)
               = Fulfilled match r2 with
                           | Resolved _ => newDocument
                           | Rejected e => e
                           end
         end).
Proof.
  split; [intros; apply guarded_run, guarded_findOne|].
  split; [intros; apply guarded_run, guarded_find|].
  split; [intros; apply guarded_run, guarded_delete|].
  split; [intros; apply guarded_run, guarded_deleteMany|].
  split; [intros; apply guarded_run, guarded_deleteManyById|].
  split; [intros; apply guarded_run, guarded_update|].
  split; [intros; apply guarded_run, guarded_updateMany|].
  split; [intros; apply guarded_run, guarded_findOneAndUpdate|].
  split; [intros; apply rejected_early_or_guarded_run, early_all|].
  split; [intros; apply rejected_early_or_guarded_run, early_list|].
  split; [intros; apply rejected_early_or_guarded_run, early_listAggregation|].
  intros document. apply add_runs.
Qed.

(** ** [updateMany] *)

(** What [updateMany] sends: [{$set: documentUpdate}], the document being
    the object at [l], with no property that reads as a falsy value. *)
Definition sends_cleaned (l : loc) (c : call) (hc : heap) : Prop :=
  match c with
  | Model_updateMany _ upd =>
      exists s : loc,
        upd = SRef s /\ hc !! s = Some (CObj [("$set", SRef l)])
        /\ forall (ps : sprops) (k : string) (v : sval),
            hc !! l = Some (CObj ps) -> assoc k ps = Some v -> truthy v = true
  | _ => True
  end.

Lemma updateMany_sends_cleaned (id : sval) (l : loc) (h : heap) :
  every_call (sends_cleaned l) (updateMany id (SRef l) h).
Proof.
  unfold updateMany, uncaught, return_error.
  apply every_call_sync; [intros; apply every_call_settle|]. intros idList h1 E1.
  unfold new_array in E1. injection E1 as <- <-.
  apply every_call_collect_ids; [intros; exact I|intros; apply every_call_settle|].
  intros h2.
  apply every_call_sync; [intros; apply every_call_settle|]. intros cleaned h3 E3.
  destruct (cleanDocumentUpdate_reads l h2) as (Hfst & Hlen & Hother & Hread).
  rewrite E3 in Hfst, Hlen, Hother, Hread. cbn [fst snd] in Hfst, Hlen, Hother, Hread.
  injection Hfst as ->.
  apply every_call_sync; [intros; apply every_call_settle|]. intros filter h4 E4.
  rewrite run_bind_new_object in E4. unfold new_object in E4. injection E4 as <- <-.
  apply every_call_sync; [intros; apply every_call_settle|]. intros upd h5 E5.
  unfold new_object in E5. injection E5 as <- <-.
  apply every_call_calling; [|intros; apply every_call_settle|intros; apply every_call_settle].
  eexists. split; [reflexivity|]. split; [now apply list_lookup_middle|].
  intros ps k v Hc Hk. rewrite <- !app_assoc in Hc. cbn [app] in Hc.
  destruct (Nat.lt_ge_cases l (length h3)) as [Hl|Hl].
  - rewrite lookup_app_l in Hc by exact Hl. exact (Hread ps k v Hc Hk).
  - rewrite lookup_app_r in Hc by exact Hl.
    destruct (l - length h3) as [|[|[|n]]]; cbn in Hc; try discriminate Hc;
      injection Hc as <-; cbn in Hk;
      match type of Hk with
      | (if ?b then _ else _) = _ => destruct b; [|discriminate Hk]
      end; now injection Hk as <-.
Qed.

(** C9.  [cleanDocumentUpdate] on an object: the object itself is
    rewritten, it loses the properties whose value is falsy and keeps the
    others in order, and the same reference is returned; [false], [0],
    the empty string, [null] and [undefined] are falsy; and in every run
    of [updateMany] the update sent to the database is [{$set:
    documentUpdate}] with the very object that was passed, in which no
    property reads as a falsy value any more. *)
Theorem cleanDocumentUpdate_drops_falsy :
  (forall (l : loc) (ps : sprops) (h : heap),
      h !! l = Some (CObj ps) ->
      NoDup (map fst ps) ->
      cleanDocumentUpdate (SRef l) h
      = (Return (SRef l), <[l := CObj (List.filter (fun p => truthy (snd p)) ps)]> h))
  /\ (truthy (SBool false) = false
      /\ truthy (SNum (num_of_Z 0)) = false
      /\ truthy (SStr EmptyString) = false
      /\ truthy SNull = false
      /\ truthy SUndefined = false)
  /\ (forall (id : sval) (l : loc) (h : heap) (w : W) (filter upd : sval) (r : reply)
             (hc : heap),
         In (Model_updateMany filter upd, r, hc)
            (result_trace W (run (updateMany id (SRef l) h) w)) ->
         exists s : loc,
           upd = SRef s /\ hc !! s = Some (CObj [("$set", SRef l)])
           /\ forall (ps : sprops) (k : string) (v : sval),
               hc !! l = Some (CObj ps) -> assoc k ps = Some v -> truthy v = true).
Proof.
  split; [exact cleanDocumentUpdate_object|].
  split; [repeat split; reflexivity|].
  intros id l h w filter upd r hc Hin.
  exact (every_call_run _ _ (updateMany_sends_cleaned id l h) w _ r hc Hin).
Qed.

(** ** [getById] *)

(** C10.  When the lookup of [getById] throws, whatever it throws,
    [getById] returns [null], exactly as when the lookup finds no
    document; [delete] and [update] then return [null] as well, having
    made no other call. *)
Theorem getById_null_when_lookup_fails (id : sval) (h : heap) (w : W)
    (r : reply) (h' : heap) (w' : W) :
  env w (Model_findById id) h = (r, h', w') ->
  r = Resolved SNull \/ (exists e : sval, r = Rejected e) ->
  let masked : run_result W :=
    {| result_settled := Fulfilled SNull; result_heap := h'; result_world := w';
       result_trace := [(Model_findById id, r, h)] |} in
  run (getById id h) w = masked
  /\ run (delete id h) w = masked
  /\ (forall documentUpdate : sval, run (update id documentUpdate h) w = masked).
Proof.
  intros E Hr. cbv zeta.
  unfold update, delete, await_getById, getById, calling. cbn [awaiting Store.run].
  rewrite E. destruct Hr as [->|[e ->]]; cbn; repeat split; reflexivity.
Qed.

End Facade.

(** * The properties at concrete inputs *)

Lemma classifier_receives_value_only_witness :
  Tree.kindOf (VObj [("lt", VNum (num_of_Z 5))]) = "object"
  /\ Tree.transferField Sample.Number_toString Sample.StringToNumber
       (fun _ => Throw RangeError)
       (VObj [("age", VObj [("lt", VNum (num_of_Z 5))])]) "age" []
     = let* node :=
         Tree.convertSearchOperator Sample.Number_toString (fun _ => Throw RangeError)
           (VStr "lt") "number" (VNum (num_of_Z 5)) in
       Ok (set_prop [] "age" node).
Proof.
  split; [reflexivity|].
  destruct (classifier_receives_value_only Sample.Number_toString Sample.StringToNumber)
    as (_ & _ & _ & _ & H).
  exact (H (fun _ => Throw RangeError) "age" "lt" (VNum (num_of_Z 5)) [] [] [] eq_refl).
Defined.

Lemma contains_number_not_compiled_witness :
  "name" <> "__proto__"
  /\ Tree.toMongooseFilterExpression Sample.Number_toString Sample.StringToNumber
       (VObj [("name", VObj [("contains", VStr "number")])])
     = Ok (VObj [("name", VStr "number")]).
Proof.
  split; [discriminate|].
  apply (contains_number_not_compiled Sample.Number_toString Sample.StringToNumber "name").
  discriminate.
Defined.

(** C4, the claim as stated: on the operand ["abc"] the coercion does not
    give the default [0]. *)
Lemma exists_non_numeric_is_not_zero :
  Tree.toMongooseFilterExpression Sample.Number_toString Sample.StringToNumber
    (VObj [("firstname", VObj [("exists", VStr "abc")])])
  <> Ok (VObj [("firstname", VObj [("$exists", VNum (num_of_Z 0))])]).
Proof. vm_compute. discriminate. Qed.

Lemma exists_coerced_by_parseInt_witness :
  "firstname" <> "__proto__"
  /\ non_numeric (VStr "abc") = true
  /\ Tree.toMongooseFilterExpression Sample.Number_toString Sample.StringToNumber
       (VObj [("firstname", VObj [("exists", VStr "abc")])])
     = Ok (VObj [("firstname", VObj [("$exists", VNum NaN)])])
  /\ Tree.parseInt Sample.Number_toString (VStr "12") 0 = Ok (num_of_Z 12)
  /\ Tree.toMongooseFilterExpression Sample.Number_toString Sample.StringToNumber
       (VObj [("firstname", VObj [("exists", VStr "12")])])
     = Ok (VObj [("firstname", VObj [("$exists", VNum (num_of_Z 12))])])
  /\ assoc "toString" [("toString", VNum (num_of_Z 1))] = Some (VNum (num_of_Z 1))
  /\ Tree.toMongooseFilterExpression Sample.Number_toString Sample.StringToNumber
       (VObj [("firstname", VObj [("exists", VObj [("toString", VNum (num_of_Z 1))])])])
     = Throw TypeError.
Proof.
  destruct (exists_coerced_by_parseInt Sample.Number_toString Sample.StringToNumber
              "firstname" ltac:(discriminate)) as (_ & _ & Hnum & Hnan & _ & Hthrow).
  split; [discriminate|]. split; [reflexivity|].
  split; [exact (Hnan (VStr "abc") eq_refl)|].
  split; [reflexivity|].
  split; [exact (Hnum (VStr "12") (num_of_Z 12) eq_refl)|].
  split; [reflexivity|].
  exact (Hthrow [("toString", VNum (num_of_Z 1))] (VNum (num_of_Z 1)) eq_refl).
Defined.


Lemma compiler_keeps_its_input_witness :
  let h := [Store.CObj [("contains", Store.SStr "dump")];
            Store.CObj [("firstname", Store.SRef 0)]] in
  let run := Store.toMongooseFilterExpression Sample.Number_toString
               Sample.StringToNumber Sample.Error_toString 5 (Store.SRef 1) h in
  closed h = true
  /\ refs_below (length h) (Store.SRef 1) = true
  /\ fst run = Store.Return (Store.SRef 2)
  /\ Store.read_value 3 (snd run) (Store.SRef 1) = Store.read_value 3 h (Store.SRef 1)
  /\ exists (t : nat) (ps : list (string * Store.sval)),
       Store.SRef 2 = Store.SRef t /\ h !! t = None /\ snd run !! t = Some (Store.CObj ps)
       /\ (refs_below (length h) (Store.SRef 1) = true -> Store.SRef 2 <> Store.SRef 1).
Proof.
  cbv zeta.
  destruct (compiler_keeps_its_input Sample.Number_toString Sample.StringToNumber
              Sample.Error_toString 5 (Store.SRef 1)
              [Store.CObj [("contains", Store.SStr "dump")];
               Store.CObj [("firstname", Store.SRef 0)]]) as (_ & Hread & Hfresh).
  split; [reflexivity|]. split; [reflexivity|]. split; [reflexivity|].
  split; [exact (Hread eq_refl eq_refl 3)|].
  exact (Hfresh (Store.SRef 2) eq_refl).
Defined.

(** C3 at [list()] on a data source with the default page size. *)
Lemma empty_filter_counted_with_countDocuments_witness :
  let this := {| Store.options := Store.SRef 0 |} in
  let h := [Store.CObj [("limit", Store.SNum Store.PAGINATION_DEFAULT_LIMIT)]] in
  Store.options this = Store.SRef 0
  /\ h !! 0 = Some (Store.CObj [("limit", Store.SNum Store.PAGINATION_DEFAULT_LIMIT)])
  /\ assoc "limit" [("limit", Store.SNum Store.PAGINATION_DEFAULT_LIMIT)]
     = Some (Store.SNum Store.PAGINATION_DEFAULT_LIMIT)
  /\ exists (t : nat) (r : Store.reply) (hc : list Store.cell)
            (rest : list (Store.call * Store.reply * list Store.cell)),
       Store.result_trace unit
         (Store.run unit Sample.database_idle
            (Store.list_ Sample.Number_toString Sample.StringToNumber
               Sample.Error_toString this 3 Store.SUndefined h) tt)
       = (Store.Model_countDocuments (Store.SRef t), r, hc) :: rest
       /\ hc !! t = Some (Store.CObj []).
Proof.
  cbv zeta.
  destruct (empty_filter_counted_with_countDocuments Sample.Number_toString
              Sample.StringToNumber Sample.Error_toString unit Sample.database_idle)
    as (_ & _ & _ & H).
  split; [reflexivity|]. split; [reflexivity|]. split; [reflexivity|].
  exact (H {| Store.options := Store.SRef 0 |} 2
           [Store.CObj [("limit", Store.SNum Store.PAGINATION_DEFAULT_LIMIT)]] tt 0
           [("limit", Store.SNum Store.PAGINATION_DEFAULT_LIMIT)]
           Store.PAGINATION_DEFAULT_LIMIT eq_refl eq_refl eq_refl).
Defined.

(** C8, the claim as stated: with the database down, [delete] returns
    [null] and not the error, and the promise of [add] is rejected. *)
Lemma lookup_failure_returns_null_and_add_rejects :
  Store.result_settled unit
    (Store.run unit Sample.database_down (Store.delete (Store.SStr "5f1d") []) tt)
  = Store.Fulfilled Store.SNull
  /\ Store.result_settled unit
       (Store.run unit Sample.database_down (Store.delete (Store.SStr "5f1d") []) tt)
     <> Store.Fulfilled (Store.SStr "connection lost")
  /\ Store.result_settled unit
       (Store.run unit Sample.database_down (Store.add (Store.SStr "x") []) tt)
     = Store.RejectedWith (Store.SStr "connection lost").
Proof. split; [reflexivity|]. split; [discriminate|reflexivity]. Qed.

Lemma database_failures_returned_witness :
  Sample.database_down tt (Store.Model_new Store.SNull) []
  = (Store.Rejected (Store.SStr "connection lost"), [], tt)
  /\ Store.result_settled unit
       (Store.run unit Sample.database_down (Store.add Store.SNull []) tt)
     = Store.RejectedWith (Store.SStr "connection lost")
  /\ catches unit Sample.database_down
       (Store.updateMany (Store.SStr "5f1d") Store.SNull []) tt.
Proof.
  destruct (database_failures_returned Sample.Number_toString Sample.StringToNumber
              Sample.Error_toString unit Sample.database_down [] tt)
    as (_ & _ & _ & _ & _ & _ & Hmany & _ & _ & _ & _ & Hadd).
  split; [reflexivity|].
  split; [exact (Hadd Store.SNull _ [] tt eq_refl)|].
  exact (Hmany (Store.SStr "5f1d") Store.SNull).
Defined.

Lemma cleanDocumentUpdate_drops_falsy_witness :
  let ps := [("active", Store.SBool false); ("count", Store.SNum (num_of_Z 0));
             ("name", Store.SStr EmptyString); ("title", Store.SStr "x")] in
  let h := [Store.CObj ps] in
  let sent := [Store.CObj [("title", Store.SStr "x")];
               Store.array_cell [Store.SStr "5f1d"];
               Store.CObj [("$in", Store.SRef 1)];
               Store.CObj [("_id", Store.SRef 2)];
               Store.CObj [("$set", Store.SRef 0)]] in
  h !! 0 = Some (Store.CObj ps)
  /\ NoDup (map fst ps)
  /\ Store.cleanDocumentUpdate (Store.SRef 0) h
     = (Store.Return (Store.SRef 0), [Store.CObj [("title", Store.SStr "x")]])
  /\ In (Store.Model_updateMany (Store.SRef 3) (Store.SRef 4),
         Store.Resolved Store.SNull, sent)
        (Store.result_trace unit
           (Store.run unit Sample.database_idle
              (Store.updateMany (Store.SStr "5f1d") (Store.SRef 0) h) tt))
  /\ exists s : nat,
       Store.SRef 4 = Store.SRef s
       /\ sent !! s = Some (Store.CObj [("$set", Store.SRef 0)])
       /\ forall (ps' : list (string * Store.sval)) (k : string) (v : Store.sval),
           sent !! 0 = Some (Store.CObj ps') -> assoc k ps' = Some v ->
           Store.truthy v = true.
Proof.
  cbv zeta.
  destruct (cleanDocumentUpdate_drops_falsy unit Sample.database_idle)
    as (Hclean & _ & Hsent).
  assert (Hnd : NoDup (map fst
                  [("active", Store.SBool false); ("count", Store.SNum (num_of_Z 0));
                   ("name", Store.SStr EmptyString); ("title", Store.SStr "x")])).
  { cbn [map fst].
    repeat (apply NoDup_cons_2;
            [intros Hin; apply list_elem_of_In in Hin; cbn in Hin; intuition discriminate|]).
    apply NoDup_nil_2. }
  assert (Hin : In (Store.Model_updateMany (Store.SRef 3) (Store.SRef 4),
                    Store.Resolved Store.SNull,
                    [Store.CObj [("title", Store.SStr "x")];
                     Store.array_cell [Store.SStr "5f1d"];
                     Store.CObj [("$in", Store.SRef 1)];
                     Store.CObj [("_id", Store.SRef 2)];
                     Store.CObj [("$set", Store.SRef 0)]])
                (Store.result_trace unit
                   (Store.run unit Sample.database_idle
                      (Store.updateMany (Store.SStr "5f1d") (Store.SRef 0)
                         [Store.CObj
                            [("active", Store.SBool false);
                             ("count", Store.SNum (num_of_Z 0));
                             ("name", Store.SStr EmptyString);
                             ("title", Store.SStr "x")]]) tt))).
  { right. left. reflexivity. }
  split; [reflexivity|]. split; [exact Hnd|].
  split; [exact (Hclean 0
                  [("active", Store.SBool false); ("count", Store.SNum (num_of_Z 0));
                   ("name", Store.SStr EmptyString); ("title", Store.SStr "x")]
                  [Store.CObj
                     [("active", Store.SBool false); ("count", Store.SNum (num_of_Z 0));
                      ("name", Store.SStr EmptyString); ("title", Store.SStr "x")]]
                  eq_refl Hnd)|].
  split; [exact Hin|].
  exact (Hsent _ _ _ _ _ _ _ _ Hin).
Defined.

Lemma getById_null_when_lookup_fails_witness :
  let masked :=
    {| Store.result_settled := Store.Fulfilled Store.SNull;
       Store.result_heap := [];
       Store.result_world := tt;
       Store.result_trace :=
         [(Store.Model_findById (Store.SStr "not-an-id"),
           Store.Rejected (Store.SStr "connection lost"), [])] |} in
  Sample.database_down tt (Store.Model_findById (Store.SStr "not-an-id")) []
  = (Store.Rejected (Store.SStr "connection lost"), [], tt)
  /\ (Store.Rejected (Store.SStr "connection lost") = Store.Resolved Store.SNull
      \/ exists e : Store.sval,
           Store.Rejected (Store.SStr "connection lost") = Store.Rejected e)
  /\ Store.run unit Sample.database_down (Store.getById (Store.SStr "not-an-id") []) tt
     = masked
  /\ Store.run unit Sample.database_down (Store.delete (Store.SStr "not-an-id") []) tt
     = masked
  /\ Store.run unit Sample.database_down
       (Store.update (Store.SStr "not-an-id") (Store.SRef 0) []) tt
     = masked.
Proof.
  cbv zeta.
  destruct (getById_null_when_lookup_fails unit Sample.database_down
              (Store.SStr "not-an-id") [] tt
              (Store.Rejected (Store.SStr "connection lost")) [] tt eq_refl
              (or_intror (ex_intro _ (Store.SStr "connection lost") eq_refl)))
    as (Hget & Hdelete & Hupdate).
  split; [reflexivity|].
  split; [right; now exists (Store.SStr "connection lost")|].
  split; [exact Hget|]. split; [exact Hdelete|]. exact (Hupdate (Store.SRef 0)).
Defined.
